(** * nix-review: the command-line driver [nix_review/cli.py]

    A shallow embedding of [cli.py] and the properties of its range parser,
    its batch orchestrator ([pr_command]), its single-commit orchestrator
    ([rev_command]) and its entry point ([main]).

    Python values are modelled as follows.
    - [str] is [string]; a character is a code point below 256.  In that
      range the only characters matched by the regular expression class
      [\d] are ['0'..'9'], and the white space skipped by [int()] is
      TAB, LF, VT, FF, CR, SPACE, U+0085 and U+00A0.  Digits and spaces
      above U+00FF are outside the model.
    - [int] is [Z].  The conversions between [int] and [str] have the
      limit of [sys.int_max_str_digits] at its default, 4300 digits, which
      [cli.py] never changes: [int(s)] and [str(n)] raise [ValueError]
      beyond it.
    - An exception is a value of [exn]; [sys.exit(n)] raises [SystemExit n].
    - Everything observable that the program does is recorded as an [event].
    - [pr_flags], [rev_flags] and [CommonFlag] only configure [argparse];
      the parser that [parse_args] builds from them is one of the
      collaborators, like the workspaces, the build pipeline, the shell
      launcher, the environment scope and [git]. *)

From Stdlib Require Import NArith ZArith List String Ascii Bool Lia.
From Stdlib Require Import DecimalString DecimalPos Sorted.
From Stdlib Require DecimalFacts.
Import ListNotations.
Local Open Scope string_scope.
Local Open Scope list_scope.
Local Open Scope Z_scope.

(** ** Python primitives used by [cli.py] *)

Module Py.

Definition code (c : ascii) : N := N_of_ascii c.

(** [\d] on a code point below 256. *)
Definition is_digit (c : ascii) : bool :=
  ((48 <=? code c) && (code c <=? 57))%N.

Definition digit_value (c : ascii) : Z := Z.of_N (code c) - 48.

(** White space skipped by [int()] around the literal. *)
Definition is_space (c : ascii) : bool :=
  (((9 <=? code c) && (code c <=? 13)) || (code c =? 32)
   || (code c =? 133) || (code c =? 160))%N.

Definition all_digits (s : string) : bool :=
  forallb is_digit (list_ascii_of_string s).

(** The longest prefix of digits, and what follows it (greedy [\d*]). *)
Fixpoint span_digits (s : string) : string * string :=
  match s with
  | String c s' =>
      if is_digit c
      then let (d, r) := span_digits s' in (String c d, r)
      else (EmptyString, s)
  | EmptyString => (EmptyString, EmptyString)
  end.

(** [re.match(r"(\d+)-(\d+)", arg)]: [None] when there is no match at the
    start of [arg], otherwise the two groups.  Both groups are greedy; the
    first cannot give digits back because a ['-'] has to follow it. *)
Definition re_match (arg : string) : option (string * string) :=
  let (g1, r1) := span_digits arg in
  match g1, r1 with
  | String _ _, String c r2 =>
      if Ascii.eqb c "-" then
        let (g2, _) := span_digits r2 in
        match g2 with
        | String _ _ => Some (g1, g2)
        | EmptyString => None
        end
      else None
  | _, _ => None
  end.

Fixpoint skip_spaces (s : string) : string :=
  match s with
  | String c s' => if is_space c then skip_spaces s' else s
  | EmptyString => EmptyString
  end.

(** [sys.int_max_str_digits], at its default. *)
Definition max_str_digits : N := 4300.

(** A text of at most [max_str_digits] characters. *)
Definition within_limit (s : string) : bool :=
  (N.of_nat (String.length s) <=? max_str_digits)%N.

(** The digit loop of [int()]: digits with single underscores between
    them.  [prev_us] tells that the previous character was an underscore
    and [count] is the number of digits read so far (underscores are not
    counted, leading zeros are).  Returns the value read, the number of
    digits and the rest of the text, [None] on a doubled or trailing
    underscore. *)
Fixpoint int_digits (prev_us : bool) (count : N) (acc : Z) (s : string)
  : option (Z * N * string) :=
  match s with
  | String c s' =>
      if is_digit c
      then int_digits false (N.succ count) (10 * acc + digit_value c) s'
      else if Ascii.eqb c "_"
           then if prev_us then None else int_digits true count acc s'
           else if prev_us then None else Some (acc, count, s)
  | EmptyString => if prev_us then None else Some (acc, count, s)
  end.

(** The literal after the sign: it has to start with a digit and to have
    at most [max_str_digits] digits. *)
Definition int_unsigned (s : string) : option Z :=
  match s with
  | String c _ =>
      if is_digit c then
        match int_digits false 0 0 s with
        | Some (n, count, rest) =>
            if (count <=? max_str_digits)%N then
              match skip_spaces rest with
              | EmptyString => Some n
              | String _ _ => None
              end
            else None
        | None => None
        end
      else None
  | EmptyString => None
  end.

(** [int(s)] in base 10; [None] stands for [ValueError]. *)
Definition int (s : string) : option Z :=
  match skip_spaces s with
  | String c s' =>
      if Ascii.eqb c "+" then int_unsigned s'
      else if Ascii.eqb c "-" then option_map Z.opp (int_unsigned s')
      else int_unsigned (String c s')
  | EmptyString => None
  end.

(** [list(range(low, high))]. *)
Definition range (low high : Z) : list Z :=
  map (fun i => low + Z.of_nat i) (seq 0 (Z.to_nat (high - low))).

(** The text that [str(n)] returns, as used by an f-string field [{n}].
    [str(n)] raises [ValueError] instead when [n] has more than
    [max_str_digits] digits ([str_raises]).  The driver only formats
    numbers that [parse_pr_numbers] returned, which are within that limit
    (lemma [parse_pr_numbers_formattable]). *)
Definition str (n : Z) : string := NilZero.string_of_int (Z.to_int n).

Definition str_raises (n : Z) : bool := negb (within_limit (str (Z.abs n))).

(** The decimal value of a string of digits. *)
Definition decimal (s : string) : Z :=
  fold_left (fun acc c => 10 * acc + digit_value c)
            (list_ascii_of_string s) 0.

End Py.

(** ** Exceptions, data and events *)

Inductive exn : Type :=
| CalledProcessError            (* subprocess.CalledProcessError *)
| ValueError
| SystemExit (code : Z)         (* raised by sys.exit(code) *)
| OtherException (name : string).

Inductive result (A : Type) : Type :=
| Ok (a : A)
| Raise (e : exn).
Arguments Ok {A} a.
Arguments Raise {A} e.

(** The status with which the interpreter leaves when a computation that
    runs at the top level ends with [r]: 0 on a normal return, the code of
    an uncaught [SystemExit], and 1 for any other uncaught exception. *)
Definition exit_status {A : Type} (r : result A) : Z :=
  match r with
  | Ok _ => 0
  | Raise (SystemExit c) => c
  | Raise _ => 1
  end.

(** [argparse.Namespace], with the attributes that the two sub-parsers of
    [parse_args] declare.  [func] is the handler bound by [set_defaults]. *)
Inductive handler : Type := func_pr_command | func_rev_command.

Module argparse.
Record Namespace : Type := mkNamespace {
  func : handler;
  number : list string;        (* pr: positional, nargs="+" *)
  eval : string;               (* pr: --eval *)
  checkout : string;           (* pr: -c/--checkout *)
  token : option string;       (* pr: --token *)
  commit : string;             (* rev: positional *)
  branch : string;             (* rev: -b/--branch *)
  build_args : string;         (* common: --build-args *)
  package : list string        (* common: -p/--package *)
}.
End argparse.

(** Modelled from the spec: the class [Worktree] of [worktree.py], which is
    not part of the sources at hand.  A workspace exposes its checkout path
    and a derived package-search-path string. *)
Module worktree.
Record Worktree : Type := mkWorktree {
  name : string;
  worktree_dir : string;
  nixpkgs_path : string        (* the value of worktree.nixpkgs_path() *)
}.
End worktree.
Import worktree.

(** Modelled from the spec: [CheckoutOption], the constructor arguments of
    [Review] and the built package set returned by [Review.build_pr], all
    of [review.py], which is not part of the sources at hand.  A keyword
    that a call site of [Review(...)] leaves out is [None]. *)
Module review.
Inductive CheckoutOption : Type := MERGE | COMMIT.

Definition Attrs : Type := list string.

Record Review : Type := mkReview {
  worktree_dir : string;
  build_args : string;
  api_token : option string;
  use_ofborg_eval : option bool;
  only_packages : list string;         (* set(args.package) *)
  checkout : option CheckoutOption
}.
End review.
Import review.

(** One element of [contexts] in [pr_command]. *)
Definition context : Type := (Z * Worktree * Attrs)%type.

Inductive event : Type :=
| Stdout (line : string)                                   (* print(line) *)
| Stderr (line : string)                    (* print(line, file=sys.stderr) *)
| ParseArgs (command : string) (raw_args : list string)
            (r : result argparse.Namespace)
| BuildenvEnter
| BuildenvExit
| WorktreeEnter (name : string) (r : result Worktree)
| WorktreeExit (w : Worktree)
| BuildPr (rv : Review) (pr : Z) (r : result Attrs)
| ReviewCommit (rv : Review) (branch commit : string) (r : result unit)
| Setenv (key value : string)                  (* os.environ[key] = value *)
| NixShell (attrs : Attrs) (nix_path : option string) (r : result unit)
| GitRevParse (ref : string) (r : result string).

(** ** The collaborators

    [cli.py] calls into [worktree.py], [review.py], [buildenv.py], [git]
    and [argparse].  Each is an arbitrary function of the state of the
    outside world (file system, repositories, network) that returns a new
    state and either a value or an exception.

    Modelled from the spec: the scope exits of [Worktree] and [Buildenv]
    (not part of the sources at hand) always run to completion and never
    swallow the exception that unwinds through them; entering [Buildenv]
    does not fail. *)
Class Collaborators (World : Type) : Type := {
  (* Worktree(name).__enter__() *)
  Worktree_enter : string -> World -> result Worktree * World;
  (* worktree.__exit__(...) *)
  Worktree_exit : Worktree -> World -> World;
  (* review.build_pr(pr) *)
  Review_build_pr : Review -> Z -> World -> result Attrs * World;
  (* review.review_commit(branch, commit) *)
  Review_review_commit :
    Review -> string -> string -> World -> result unit * World;
  (* nix_shell(attrs), started with the given NIX_PATH in its environment *)
  nix_shell_run : Attrs -> option string -> World -> result unit * World;
  Buildenv_enter : World -> World;
  Buildenv_exit : World -> World;
  (* subprocess.run(["git", "rev-parse", "--verify", ref], check=True,
                    stdout=subprocess.PIPE).stdout.decode("utf-8") *)
  git_rev_parse_verify : string -> World -> result string * World;
  (* parser.parse_args(args), for the parser that parse_args builds *)
  parser_parse_args :
    string -> list string -> World -> result argparse.Namespace * World
}.

(** ** The effect monad *)

Section Driver.

Context {World : Type} {collab : Collaborators World}.

(** The state of the process: the outside world, the entry [NIX_PATH] of
    [os.environ] (the only one the driver writes) and the callbacks
    registered on the [ExitStack] of [pr_command], most recent first. *)
Record State : Type := mkState {
  world : World;
  environ_NIX_PATH : option string;
  exit_stack : list Worktree
}.

Definition M (A : Type) : Type := State -> result A * State * list event.

Definition ret {A : Type} (a : A) : M A := fun s => (Ok a, s, []).

Definition raise {A : Type} (e : exn) : M A := fun s => (Raise e, s, []).

Definition bind {A B : Type} (m : M A) (k : A -> M B) : M B :=
  fun s =>
    let '(r, s1, t1) := m s in
    match r with
    | Ok a => let '(r2, s2, t2) := k a s1 in (r2, s2, t1 ++ t2)
    | Raise e => (Raise e, s1, t1)
    end.

Definition emit (e : event) : M unit := fun s => (Ok tt, s, [e]).

(** A call of a collaborator, recorded with what it returned. *)
Definition call {A : Type} (f : World -> result A * World)
           (ev : result A -> event) : M A :=
  fun s =>
    let (r, w) := f (world s) in
    (r, mkState w (environ_NIX_PATH s) (exit_stack s), [ev r]).

(** [try: body except E: handler], where [handler e] is [None] for the
    exceptions that the clause does not name. *)
Definition try_except {A : Type} (body : M A) (handler : exn -> option (M A))
  : M A :=
  fun s =>
    let '(r, s1, t1) := body s in
    match r with
    | Ok a => (Ok a, s1, t1)
    | Raise e =>
        match handler e with
        | Some h => let '(r2, s2, t2) := h s1 in (r2, s2, t1 ++ t2)
        | None => (Raise e, s1, t1)
        end
    end.

(** [for x in l: acc = body x acc]. *)
Fixpoint for_each {A B : Type} (body : A -> B -> M B) (l : list A) (acc : B)
  : M B :=
  match l with
  | [] => ret acc
  | x :: l' => bind (body x acc) (for_each body l')
  end.

End Driver.

Declare Scope py_scope.
Delimit Scope py_scope with py.
Notation "x <- m ;; k" := (bind m (fun x => k))
  (at level 100, m at next level, right associativity) : py_scope.
Notation "m ;; k" := (bind m (fun _ => k))
  (at level 100, right associativity) : py_scope.
Local Open Scope py_scope.

(** ** [cli.py] *)

Section Cli.

Context {World : Type} {collab : Collaborators World}.

#[local] Abbreviation M := (@M World).

Definition print (line : string) : M unit := emit (Stdout line).

Definition print_stderr (line : string) : M unit := emit (Stderr line).

Definition sys_exit {A : Type} (code : Z) : M A := raise (SystemExit code).

(** [int(s)] as a statement: [ValueError] when the text is no literal. *)
Definition int (s : string) : M Z :=
  match Py.int s with
  | Some n => ret n
  | None => raise ValueError
  end.

(** [except E: h] for a single exception class [E]. *)
Definition except {A : Type} (is_E : exn -> bool) (h : M A)
  : exn -> option (M A) :=
  fun e => if is_E e then Some h else None.

Definition is_ValueError (e : exn) : bool :=
  match e with ValueError => true | _ => false end.

Definition is_CalledProcessError (e : exn) : bool :=
  match e with CalledProcessError => true | _ => false end.

(** [str(m)] for the result of [re.match] inside an f-string.  The text
    of a match object is not needed: line 24 is only reached with [None]. *)
Definition str_match (m : option (string * string)) : string :=
  match m with
  | None => "None"
  | Some (g1, g2) =>
      ("<re.Match object; match='" ++ g1 ++ "-" ++ g2 ++ "'>")%string
  end.

(** Lines 17-25: the body of the loop of [parse_pr_numbers]; [prs] is the
    list built so far and the result is the list after the iteration. *)
Definition parse_pr_numbers_body (arg : string) (prs : list Z) : M (list Z) :=
  let m := Py.re_match arg in
  match m with
  | Some (group1, group2) =>
      low <- int group1 ;;
      high <- int group2 ;;
      ret (prs ++ Py.range low high)
  | None =>
      try_except
        (n <- int arg ;; ret (prs ++ [n]))
        (except is_ValueError
           (print_stderr ("expected number, got " ++ str_match m)%string ;;
            sys_exit 1))
  end.

(** Lines 14-26. *)
Definition parse_pr_numbers (number_args : list string) : M (list Z) :=
  for_each parse_pr_numbers_body number_args [].

Definition pr_url (pr : Z) : string :=
  ("https://github.com/NixOS/nixpkgs/pull/" ++ Py.str pr)%string.

(** [stack.enter_context(Worktree(name))]: when the workspace is entered
    its exit is pushed on the stack; when entering fails nothing is. *)
Definition enter_context_Worktree (name : string) : M Worktree :=
  fun s =>
    let '(r, s1, t1) := call (Worktree_enter name) (WorktreeEnter name) s in
    match r with
    | Ok w =>
        (Ok w, mkState (world s1) (environ_NIX_PATH s1) (w :: exit_stack s1),
         t1)
    | Raise e => (Raise e, s1, t1)
    end.

(** Unwinding of an [ExitStack]: the registered exits, last in first out. *)
Fixpoint unwind (stack : list Worktree) (w : World) : World * list event :=
  match stack with
  | [] => (w, [])
  | wt :: stack' =>
      let (w', t) := unwind stack' (Worktree_exit wt w) in
      (w', WorktreeExit wt :: t)
  end.

(** [with ExitStack() as stack: body].  The stack starts empty and is
    unwound when [body] is left, by a return or by an exception, which
    then goes on. *)
Definition with_ExitStack {A : Type} (body : M A) : M A :=
  fun s =>
    let '(r, s1, t1) := body (mkState (world s) (environ_NIX_PATH s) []) in
    let (w2, t2) := unwind (exit_stack s1) (world s1) in
    (r, mkState w2 (environ_NIX_PATH s1) (exit_stack s), t1 ++ t2).

(** [os.environ["NIX_PATH"] = value]. *)
Definition setenv_NIX_PATH (value : string) : M unit :=
  fun s =>
    (Ok tt, mkState (world s) (Some value) (exit_stack s),
     [Setenv "NIX_PATH" value]).

(** [nix_shell(attrs)]: the shell inherits the environment of the
    process. *)
Definition nix_shell (attrs : Attrs) : M unit :=
  fun s =>
    call (nix_shell_run attrs (environ_NIX_PATH s))
         (NixShell attrs (environ_NIX_PATH s)) s.

(** Lines 42-49: [Review(worktree_dir=..., ..., checkout=checkout_option)]. *)
Definition pr_Review (args : argparse.Namespace) (use_ofborg_eval : bool)
           (checkout_option : CheckoutOption) (worktree : Worktree)
  : Review :=
  {| review.worktree_dir := worktree.(worktree.worktree_dir);
     review.build_args := args.(argparse.build_args);
     review.api_token := args.(argparse.token);
     review.use_ofborg_eval := Some use_ofborg_eval;
     review.only_packages := nodup string_dec args.(argparse.package);
     review.checkout := Some checkout_option |}.

(** Lines 40-55: the body of the first loop of [pr_command]; [contexts]
    is the list of retained successes so far. *)
Definition pr_build_body (args : argparse.Namespace) (use_ofborg_eval : bool)
           (checkout_option : CheckoutOption) (pr : Z)
           (contexts : list context) : M (list context) :=
  worktree <- enter_context_Worktree ("pr-" ++ Py.str pr)%string ;;
  try_except
    (let review := pr_Review args use_ofborg_eval checkout_option worktree in
     attrs <- call (Review_build_pr review pr) (BuildPr review pr) ;;
     ret (contexts ++ [(pr, worktree, attrs)]))
    (except is_CalledProcessError
       (print_stderr (pr_url pr ++ " failed to build")%string ;;
        ret contexts)).

(** Lines 58-60: the body of the second loop of [pr_command]. *)
Definition pr_shell_body (c : context) (_ : unit) : M unit :=
  let '(pr, worktree, attrs) := c in
  print (pr_url pr) ;;
  setenv_NIX_PATH worktree.(nixpkgs_path) ;;
  nix_shell attrs.

(** Lines 39-63: what runs inside [with ExitStack() as stack]. *)
Definition pr_command_scope (args : argparse.Namespace) (prs : list Z)
           (use_ofborg_eval : bool) (checkout_option : CheckoutOption)
  : M unit :=
  contexts <- for_each (pr_build_body args use_ofborg_eval checkout_option)
                       prs [] ;;
  for_each pr_shell_body contexts tt ;;
  if negb (Nat.eqb (List.length contexts) (List.length prs))
  then sys_exit 1
  else ret tt.

(** Line 31. *)
Definition pr_use_ofborg_eval (args : argparse.Namespace) : bool :=
  String.eqb args.(argparse.eval) "ofborg".

(** Lines 32-34. *)
Definition pr_checkout_option (args : argparse.Namespace) : CheckoutOption :=
  if String.eqb args.(argparse.checkout) "merge" then MERGE else COMMIT.

(** Lines 29-63. *)
Definition pr_command (args : argparse.Namespace) : M unit :=
  prs <- parse_pr_numbers args.(argparse.number) ;;
  let use_ofborg_eval := pr_use_ofborg_eval args in
  let checkout_option := pr_checkout_option args in
  with_ExitStack (pr_command_scope args prs use_ofborg_eval checkout_option).

(** The body of the first loop with the flags as [pr_command] sets them,
    and the [Review] it builds for a workspace. *)
Definition build_step (args : argparse.Namespace)
  : Z -> list context -> M (list context) :=
  pr_build_body args (pr_use_ofborg_eval args) (pr_checkout_option args).

Definition review_in (args : argparse.Namespace) (w : Worktree) : Review :=
  pr_Review args (pr_use_ofborg_eval args) (pr_checkout_option args) w.

(** The state in which the body of [with ExitStack() as stack] starts. *)
Definition fresh_stack (s : @State World) : @State World :=
  mkState (world s) (environ_NIX_PATH s) [].

(** [with Worktree(name) as worktree: body]. *)
Definition with_Worktree {A : Type} (name : string) (body : Worktree -> M A)
  : M A :=
  worktree <- call (Worktree_enter name) (WorktreeEnter name) ;;
  fun s =>
    let '(r, s1, t1) := body worktree s in
    (r,
     mkState (Worktree_exit worktree (world s1)) (environ_NIX_PATH s1)
             (exit_stack s1),
     t1 ++ [WorktreeExit worktree]).

(** Lines 66-78. *)
Definition rev_command (args : argparse.Namespace) : M unit :=
  commit <- call (git_rev_parse_verify args.(argparse.commit))
                 (GitRevParse args.(argparse.commit)) ;;
  with_Worktree ("rev-" ++ commit)%string (fun worktree =>
    let review :=
      {| review.worktree_dir := worktree.(worktree.worktree_dir);
         review.build_args := args.(argparse.build_args);
         review.api_token := None;
         review.use_ofborg_eval := None;
         review.only_packages := nodup string_dec args.(argparse.package);
         review.checkout := None |} in
    call (Review_review_commit review args.(argparse.branch) commit)
         (ReviewCommit review args.(argparse.branch) commit)).

(** Lines 137-168: [parse_args] builds the parser and returns what
    [parser.parse_args] returns. *)
Definition parse_args (command : string) (args : list string)
  : M argparse.Namespace :=
  call (parser_parse_args command args) (ParseArgs command args).

(** [with Buildenv(): body]. *)
Definition with_Buildenv {A : Type} (body : M A) : M A :=
  fun s =>
    let s0 := mkState (Buildenv_enter (world s)) (environ_NIX_PATH s)
                      (exit_stack s) in
    let '(r, s1, t1) := body s0 in
    (r,
     mkState (Buildenv_exit (world s1)) (environ_NIX_PATH s1) (exit_stack s1),
     [BuildenvEnter] ++ t1 ++ [BuildenvExit]).

(** [args.func(args)]. *)
Definition call_func (args : argparse.Namespace) : M unit :=
  match args.(argparse.func) with
  | func_pr_command => pr_command args
  | func_rev_command => rev_command args
  end.

(** Lines 171-175. *)
Definition main (command : string) (raw_args : list string) : M unit :=
  args <- parse_args command raw_args ;;
  with_Buildenv (call_func args).

End Cli.

(** ** A concrete set of collaborators

    Used to run the driver on concrete inputs.  The world is the list of
    the names of the live workspaces.  Entering a workspace fails when its
    name is live; building fails for the changes listed in [broken] and
    crashes for those in [crashing]; [git rev-parse --verify] only knows
    [HEAD]; the argument parser only knows [pr N...] and [rev COMMIT]. *)

Module Scenario.

Definition World : Type := list string.

Definition mem (x : Z) (l : list Z) : bool := existsb (Z.eqb x) l.

Definition enter (name : string) (w : World) : result Worktree * World :=
  if existsb (String.eqb name) w
  then (Raise (OtherException "FileExistsError"), w)
  else (Ok (mkWorktree name ("./.review/" ++ name)
                       ("nixpkgs=/src/.review/" ++ name))%string,
        name :: w).

Definition leave (wt : Worktree) (w : World) : World :=
  filter (fun n => negb (String.eqb n wt.(name))) w.

Definition build (broken crashing : list Z) (rv : Review) (pr : Z)
           (w : World) : result Attrs * World :=
  if mem pr broken then (Raise CalledProcessError, w)
  else if mem pr crashing then (Raise (OtherException "KeyError"), w)
  else (Ok ["pkg" ++ Py.str pr]%string, w).

Definition rev_parse (ref : string) (w : World) : result string * World :=
  if String.eqb ref "HEAD"
  then (Ok "0123abc", w)
  else (Raise CalledProcessError, w).

Definition parse (command : string) (raw : list string) (w : World)
  : result argparse.Namespace * World :=
  match raw with
  | "pr" :: n :: ns =>
      (Ok (argparse.mkNamespace func_pr_command (n :: ns) "ofborg" "merge"
                                None "" "" "" []), w)
  | ["rev"; c] =>
      (Ok (argparse.mkNamespace func_rev_command [] "" "" None c "master"
                                "" []), w)
  | _ => (Raise (SystemExit 2), w)
  end.

Definition collaborators (broken crashing : list Z) : Collaborators World :=
  {| Worktree_enter := enter;
     Worktree_exit := leave;
     Review_build_pr := build broken crashing;
     Review_review_commit := fun _ _ _ w => (Ok tt, w);
     nix_shell_run := fun _ _ w => (Ok tt, w);
     Buildenv_enter := fun w => w;
     Buildenv_exit := fun w => w;
     git_rev_parse_verify := rev_parse;
     parser_parse_args := parse |}.

Definition start : State := mkState ([] : World) None [].

(** The arguments of [pr N...] as the parser above returns them. *)
Definition pr_args (numbers : list string) : argparse.Namespace :=
  argparse.mkNamespace func_pr_command numbers "ofborg" "merge" None "" ""
                       "" [].

(** [pr 1-4] when the build of change 2 fails. *)
Definition run_one_failure : result unit * State * list event :=
  pr_command (collab := collaborators [2] []) (pr_args ["1-4"]) start.

(** [pr 1-5] when the build of change 2 fails and the one of change 3
    raises [KeyError]. *)
Definition run_crash : result unit * State * list event :=
  pr_command (collab := collaborators [2] [3]) (pr_args ["1-5"]) start.

(** [rev nope], a ref that does not resolve. *)
Definition rev_args (ref : string) : argparse.Namespace :=
  argparse.mkNamespace func_rev_command [] "" "" None ref "master" "" [].

End Scenario.

(** ** The range parser in the words of the specification

    A token matching [^\d+-\d+] expands to [range(low, high)], the half-open
    interval that leaves [high] out; a literal integer token is parsed as it
    is; the output is the expansions one after the other, in the order of
    the tokens. *)

Module Spec.

(** [\d+]: one digit or more. *)
Definition digits (s : string) : Prop :=
  s <> EmptyString /\ Py.all_digits s = true.

Definition starts_with_digit (s : string) : bool :=
  match s with
  | String c _ => Py.is_digit c
  | EmptyString => false
  end.

(** The digits with which [s] starts (none when it starts otherwise). *)
Definition leading_digits (s : string) : string := fst (Py.span_digits s).

(** [xs] is the half-open interval from [low] to [high]: the integers
    [x] with [low <= x < high], each once, in increasing order. *)
Definition half_open (low high : Z) (xs : list Z) : Prop :=
  StronglySorted Z.lt xs /\ forall x, In x xs <-> low <= x < high.

(** The two groups of a range token have at most [Py.max_str_digits]
    digits each, as [int()] wants them; a literal is what [int()] accepts. *)
Inductive expands : string -> list Z -> Prop :=
| expands_range (low high rest : string) (xs : list Z) :
    digits low -> digits high -> starts_with_digit rest = false ->
    Py.within_limit low = true -> Py.within_limit high = true ->
    half_open (Py.decimal low) (Py.decimal high) xs ->
    expands (low ++ "-" ++ high ++ rest)%string xs
| expands_literal (token : string) (n : Z) :
    Py.int token = Some n ->
    expands token [n].

(** A token that is neither a valid range nor a valid integer. *)
Definition malformed (token : string) : Prop :=
  Py.re_match token = None /\ Py.int token = None.

(** A token that starts as a range with a group of more than
    [Py.max_str_digits] digits. *)
Definition overlong (token : string) : Prop :=
  exists g1 g2 : string,
    Py.re_match token = Some (g1, g2)
    /\ Py.within_limit g1 && Py.within_limit g2 = false.

End Spec.

(** ** What a run of the batch looks like from outside *)

Module Trace.

Definition count (p : event -> bool) (t : list event) : nat :=
  List.length (filter p t).

(** The workspaces entered with success, in the order of entry. *)
Definition acquired (t : list event) : list Worktree :=
  flat_map (fun e => match e with
                     | WorktreeEnter _ (Ok w) => [w]
                     | _ => []
                     end) t.

(** The workspaces left, in the order of leaving. *)
Definition released (t : list event) : list Worktree :=
  flat_map (fun e => match e with WorktreeExit w => [w] | _ => [] end) t.

Definition is_build_failure (e : event) : bool :=
  match e with
  | BuildPr _ _ (Raise CalledProcessError) => true
  | _ => false
  end.

(** K: how many builds raised the build-failure signal. *)
Definition build_failures (t : list event) : nat :=
  count is_build_failure t.

Definition is_shell (e : event) : bool :=
  match e with NixShell _ _ _ => true | _ => false end.

(** How many times the shell launcher was invoked. *)
Definition shell_handoffs (t : list event) : nat :=
  count is_shell t.

(** An exception that the batch does not handle: a workspace that cannot
    be entered, a build that raises anything but the build-failure signal,
    a shell launcher that raises. *)
Definition is_fatal (e : event) : bool :=
  match e with
  | WorktreeEnter _ (Raise _) => true
  | BuildPr _ _ (Raise CalledProcessError) => false
  | BuildPr _ _ (Raise _) => true
  | NixShell _ _ (Raise _) => true
  | _ => false
  end.

Definition no_fatal (t : list event) : bool :=
  forallb (fun e => negb (is_fatal e)) t.

Definition is_buildenv_enter (e : event) : bool :=
  match e with BuildenvEnter => true | _ => false end.

Definition is_buildenv_exit (e : event) : bool :=
  match e with BuildenvExit => true | _ => false end.

Definition is_worktree_exit (e : event) : bool :=
  match e with WorktreeExit _ => true | _ => false end.

Definition is_worktree_enter (e : event) : bool :=
  match e with WorktreeEnter _ _ => true | _ => false end.

Definition is_review (e : event) : bool :=
  match e with BuildPr _ _ _ | ReviewCommit _ _ _ _ => true | _ => false end.

Definition is_buildenv (e : event) : bool :=
  is_buildenv_enter e || is_buildenv_exit e.

(** The events of the second loop of [pr_command]. *)
Definition is_shell_phase (e : event) : bool :=
  match e with
  | Stdout _ | Setenv _ _ | NixShell _ _ _ => true
  | _ => false
  end.

(** The events of the first loop of [pr_command]. *)
Definition is_build_phase (e : event) : bool :=
  match e with
  | WorktreeEnter _ _ | BuildPr _ _ _ | Stderr _ => true
  | _ => false
  end.


End Trace.

(** A computation only emits events that satisfy [p]. *)
Definition emits {World A : Type} (p : event -> bool) (m : @M World A) : Prop :=
  forall s, forallb p (snd (m s)) = true.

(** The parts of a run: how it ended and what it did. *)
Definition outcome_of {World A : Type} (x : result A * @State World * list event)
  : result A := fst (fst x).

Definition events_of {World A : Type} (x : result A * @State World * list event)
  : list event := snd x.

(** ** One requested change, as the build phase of the batch saw it *)

Module Batch.

Inductive outcome : Type :=
| Built (pr : Z) (w : Worktree) (attrs : Attrs)
| Failed (pr : Z) (w : Worktree).

Definition change (o : outcome) : Z :=
  match o with Built pr _ _ | Failed pr _ => pr end.

Definition workspace (o : outcome) : Worktree :=
  match o with Built _ w _ | Failed _ w => w end.

(** What is retained in [contexts]: the successes, in order. *)
Definition retained (os : list outcome) : list context :=
  flat_map (fun o => match o with
                     | Built pr w attrs => [(pr, w, attrs)]
                     | Failed _ _ => []
                     end) os.

Definition is_failed (o : outcome) : bool :=
  match o with Failed _ _ => true | Built _ _ _ => false end.

Definition failures (os : list outcome) : nat :=
  List.length (filter is_failed os).

(** The events of lines 40-55 for one change. *)
Definition build_events (args : argparse.Namespace) (o : outcome)
  : list event :=
  let rv w := pr_Review args (pr_use_ofborg_eval args)
                        (pr_checkout_option args) w in
  match o with
  | Built pr w attrs =>
      [WorktreeEnter ("pr-" ++ Py.str pr)%string (Ok w);
       BuildPr (rv w) pr (Ok attrs)]
  | Failed pr w =>
      [WorktreeEnter ("pr-" ++ Py.str pr)%string (Ok w);
       BuildPr (rv w) pr (Raise CalledProcessError);
       Stderr (pr_url pr ++ " failed to build")%string]
  end.

(** The events of lines 58-60 for one retained success. *)
Definition shell_events (c : context) : list event :=
  let '(pr, w, attrs) := c in
  [Stdout (pr_url pr);
   Setenv "NIX_PATH" w.(nixpkgs_path);
   NixShell attrs (Some w.(nixpkgs_path)) (Ok tt)].

(** The events of a change on which the batch aborts: its workspace
    cannot be entered, or its build raises something else than the
    build-failure signal. *)
Inductive abort_events (args : argparse.Namespace) (pr : Z) (e : exn)
  : list event -> Prop :=
| abort_enter :
    abort_events args pr e
      [WorktreeEnter ("pr-" ++ Py.str pr)%string (Raise e)]
| abort_build (w : Worktree) :
    e <> CalledProcessError ->
    abort_events args pr e
      [WorktreeEnter ("pr-" ++ Py.str pr)%string (Ok w);
       BuildPr (pr_Review args (pr_use_ofborg_eval args)
                          (pr_checkout_option args) w) pr (Raise e)].

(** [l1] keeps some elements of [l2], in the order they have in [l2]. *)
Inductive subsequence {A : Type} : list A -> list A -> Prop :=
| subsequence_nil : subsequence [] []
| subsequence_keep x l1 l2 :
    subsequence l1 l2 -> subsequence (x :: l1) (x :: l2)
| subsequence_drop x l1 l2 :
    subsequence l1 l2 -> subsequence l1 (x :: l2).

End Batch.

(** ** Further notions for the runs of the two commands *)

Module Token.

(** A range token [a-b] whose expansion is empty. *)
Definition empty_range (token : string) : Prop :=
  exists a b : string,
    Spec.digits a /\ Spec.digits b
    /\ Py.within_limit a = true /\ Py.within_limit b = true
    /\ Py.decimal a >= Py.decimal b
    /\ token = (a ++ "-" ++ b)%string.

(** A text made of the white space that [int()] skips. *)
Definition all_spaces (s : string) : bool :=
  forallb Py.is_space (list_ascii_of_string s).

End Token.

Module Shell.

(** The events of lines 58-60 for a success whose shell launch raises. *)
Definition abort_events (c : context) (e : exn) : list event :=
  let '(pr, w, attrs) := c in
  [Stdout (pr_url pr);
   Setenv "NIX_PATH" w.(nixpkgs_path);
   NixShell attrs (Some w.(nixpkgs_path)) (Raise e)].

(** The value of [NIX_PATH] after line 59 ran for each of [cs] in turn,
    starting from [before]. *)
Definition last_path (before : option string) (cs : list context)
  : option string :=
  fold_left (fun _ (c : context) => Some (snd (fst c)).(nixpkgs_path))
            cs before.

End Shell.

Module Rev.

(** Lines 73-77: the [Review] that [rev_command] builds for a workspace. *)
Definition review (args : argparse.Namespace) (w : Worktree) : Review :=
  {| review.worktree_dir := w.(worktree.worktree_dir);
     review.build_args := args.(argparse.build_args);
     review.api_token := None;
     review.use_ofborg_eval := None;
     review.only_packages := nodup string_dec args.(argparse.package);
     review.checkout := None |}.

End Rev.

Module Seen.

(** The names under which workspaces were asked for, in order. *)
Definition entered_names (t : list event) : list string :=
  flat_map (fun e => match e with WorktreeEnter n _ => [n] | _ => [] end) t.

(** The changes whose build was started, in order. *)
Definition built (t : list event) : list Z :=
  flat_map (fun e => match e with BuildPr _ pr _ => [pr] | _ => [] end) t.

(** A write of [os.environ]. *)
Definition is_setenv (e : event) : bool :=
  match e with Setenv _ _ => true | _ => false end.

(** A trace without any write of [os.environ]. *)
Definition no_setenv (t : list event) : bool :=
  forallb (fun e => negb (is_setenv e)) t.

End Seen.

(** Collaborators as in [Scenario], with every build succeeding and a shell
    launcher that raises [OSError] for the changes listed in [fragile]. *)
Module Fragile.

Definition shell (fragile : list Z) (attrs : Attrs) (nix_path : option string)
           (w : Scenario.World) : result unit * Scenario.World :=
  match nix_path with
  | Some p =>
      if existsb (fun pr => String.eqb p ("nixpkgs=/src/.review/pr-"
                                          ++ Py.str pr)%string) fragile
      then (Raise (OtherException "OSError"), w)
      else (Ok tt, w)
  | None => (Ok tt, w)
  end.

Definition collaborators (fragile : list Z) : Collaborators Scenario.World :=
  {| Worktree_enter := Scenario.enter;
     Worktree_exit := Scenario.leave;
     Review_build_pr := Scenario.build [] [];
     Review_review_commit := fun _ _ _ w => (Ok tt, w);
     nix_shell_run := shell fragile;
     Buildenv_enter := fun w => w;
     Buildenv_exit := fun w => w;
     git_rev_parse_verify := Scenario.rev_parse;
     parser_parse_args := Scenario.parse |}.

(** [pr 1-4] when the shell of change 2 cannot be launched. *)
Definition run_shell_failure : result unit * State * list event :=
  pr_command (collab := collaborators [2]) (Scenario.pr_args ["1-4"])
             Scenario.start.

(** The build phase of that run, and the successes it retains. *)
Definition build_phase : result (list context) * State * list event :=
  for_each (build_step (collab := collaborators [2])
                       (Scenario.pr_args ["1-4"]))
           [1; 2; 3] [] (fresh_stack Scenario.start).

Definition successes : list context :=
  match outcome_of build_phase with
  | Ok contexts => contexts
  | Raise _ => []
  end.

End Fragile.

(** Inputs with more digits than [int()] takes. *)
Module Long.

Fixpoint copies (n : nat) (c : ascii) : string :=
  match n with
  | O => EmptyString
  | S n' => String c (copies n' c)
  end.

(** 4301 zeros. *)
Definition zeros : string := copies 4301 "0".



(** [000...05-1]: a backward range whose first group has 4302 digits. *)
Definition long_backward_range : string := (zeros ++ "5-1")%string.

End Long.

(** * Properties *)

(** ** Python primitives *)

Section PyFacts.

Import Py.

Lemma is_digit_facts (c : ascii) :
  is_digit c = true ->
  is_space c = false /\ Ascii.eqb c "+" = false /\ Ascii.eqb c "-" = false
  /\ Ascii.eqb c "_" = false.
Proof.
  destruct c as [[] [] [] [] [] [] [] []]; vm_compute; intros H;
    try discriminate H; repeat split.
Qed.

Lemma all_digits_cons (c : ascii) (s : string) :
  all_digits (String c s) = is_digit c && all_digits s.
Proof. reflexivity. Qed.

Lemma all_digits_app (s1 s2 : string) :
  all_digits (s1 ++ s2) = all_digits s1 && all_digits s2.
Proof.
  induction s1 as [|c s1 IH]; [reflexivity|].
  cbn [String.append]. rewrite !all_digits_cons, IH.
  now rewrite andb_assoc.
Qed.

(** [span_digits] splits the text, the first part is made of digits and
    the second does not start with one. *)
Lemma span_digits_spec (s : string) :
  (fst (span_digits s) ++ snd (span_digits s))%string = s
  /\ all_digits (fst (span_digits s)) = true
  /\ Spec.starts_with_digit (snd (span_digits s)) = false.
Proof.
  induction s as [|c s IH]; cbn [span_digits]; [now repeat split|].
  destruct (is_digit c) eqn:Hc.
  - destruct (span_digits s) as [d r]. cbn [fst snd] in *.
    destruct IH as (IH1 & IH2 & IH3). repeat split; trivial.
    + cbn [String.append]. now rewrite IH1.
    + now rewrite all_digits_cons, Hc, IH2.
  - cbn [fst snd]. repeat split. cbn. exact Hc.
Qed.

Lemma span_digits_app (d r : string) :
  all_digits d = true ->
  span_digits (d ++ r)
  = ((d ++ fst (span_digits r))%string, snd (span_digits r)).
Proof.
  induction d as [|c d IH]; intros Hd.
  - cbn [String.append]. now destruct (span_digits r).
  - rewrite all_digits_cons in Hd. apply andb_prop in Hd as [Hc Hd].
    cbn [String.append span_digits]. rewrite Hc, (IH Hd). reflexivity.
Qed.

Lemma span_digits_no_digit (r : string) :
  Spec.starts_with_digit r = false -> span_digits r = (EmptyString, r).
Proof.
  destruct r as [|c r]; [reflexivity|]. cbn. now intros ->.
Qed.

Lemma append_empty_r (s : string) : (s ++ "")%string = s.
Proof. induction s as [|c s IH]; cbn; [reflexivity | now rewrite IH]. Qed.

Lemma append_assoc (s1 s2 s3 : string) :
  ((s1 ++ s2) ++ s3 = s1 ++ (s2 ++ s3))%string.
Proof. induction s1 as [|c s1 IH]; cbn; [reflexivity | now rewrite IH]. Qed.

(** The regular expression on a token that starts as a range: the second
    group takes every digit that follows the dash. *)
Lemma re_match_range (low high rest : string) :
  Spec.digits low -> Spec.digits high ->
  re_match (low ++ "-" ++ high ++ rest)
  = Some (low, (high ++ Spec.leading_digits rest)%string).
Proof.
  intros [Hl1 Hl2] [Hh1 Hh2]. unfold re_match, Spec.leading_digits.
  rewrite (span_digits_app low _ Hl2).
  change ("-" ++ high ++ rest)%string with (String "-" (high ++ rest)).
  cbn [span_digits]. change (is_digit "-") with false. cbn [fst snd].
  rewrite append_empty_r.
  destruct low as [|c low]; [congruence|].
  change (Ascii.eqb "-" "-") with true. cbn match.
  rewrite (span_digits_app high _ Hh2).
  destruct high as [|c' high]; [congruence|]. reflexivity.
Qed.

(** Conversely, a token that the regular expression matches starts as a
    range, and the groups are its two runs of digits. *)
Lemma re_match_inv (arg g1 g2 : string) :
  re_match arg = Some (g1, g2) ->
  Spec.digits g1 /\ Spec.digits g2
  /\ exists rest, arg = (g1 ++ "-" ++ g2 ++ rest)%string
                  /\ Spec.starts_with_digit rest = false.
Proof.
  unfold re_match. intros H.
  destruct (span_digits_spec arg) as (E1 & D1 & _).
  destruct (span_digits arg) as [d1 r1]. cbn [fst snd] in *.
  destruct d1 as [|c1 d1]; [discriminate|].
  destruct r1 as [|c r2]; [discriminate|].
  destruct (Ascii.eqb c "-") eqn:Hc; [|discriminate].
  apply Ascii.eqb_eq in Hc. subst c.
  destruct (span_digits_spec r2) as (E2 & D2 & N2).
  destruct (span_digits r2) as [d2 r3]. cbn [fst snd] in *.
  destruct d2 as [|c2 d2]; [discriminate|].
  injection H as <- <-.
  repeat split; try discriminate; trivial.
  exists r3. split; [|exact N2].
  now rewrite <- E1, <- E2.
Qed.

Lemma int_digits_all (d r : string) (count : N) (acc : Z) :
  all_digits d = true ->
  (r = EmptyString
   \/ exists c r', r = String c r' /\ is_digit c = false
                   /\ Ascii.eqb c "_" = false) ->
  int_digits false count acc (d ++ r)
  = Some (fold_left (fun a c => 10 * a + digit_value c)
                    (list_ascii_of_string d) acc,
          (count + N.of_nat (String.length d))%N, r).
Proof.
  revert count acc. induction d as [|c d IH]; intros count acc Hd Hr.
  - cbn [String.append list_ascii_of_string fold_left String.length].
    change (N.of_nat 0) with 0%N. rewrite N.add_0_r.
    destruct Hr as [->|(c & r' & -> & H1 & H2)]; [reflexivity|].
    cbn [int_digits]. now rewrite H1, H2.
  - rewrite all_digits_cons in Hd. apply andb_prop in Hd as [Hc Hd].
    cbn [String.append int_digits list_ascii_of_string fold_left
         String.length].
    rewrite Hc, (IH _ _ Hd Hr), Nat2N.inj_succ.
    do 3 f_equal. lia.
Qed.

(** A text that starts with a digit has no sign and no white space in
    front. *)
Lemma int_digits_then (d r : string) :
  Spec.digits d -> int (d ++ r) = int_unsigned (d ++ r).
Proof.
  intros [Hne Hd]. destruct d as [|c d]; [congruence|].
  rewrite all_digits_cons in Hd. apply andb_prop in Hd as [Hc _].
  destruct (is_digit_facts c Hc) as (Hs & Hp & Hm & _).
  unfold int. cbn [String.append skip_spaces]. now rewrite Hs, Hp, Hm.
Qed.

(** The literal after the sign when it starts with a run of digits that
    ends the text or is followed by something else than an underscore:
    the run has to be within the limit and only white space may follow. *)
Lemma int_unsigned_digits (d r : string) :
  Spec.digits d ->
  (r = EmptyString
   \/ exists c r', r = String c r' /\ is_digit c = false
                   /\ Ascii.eqb c "_" = false) ->
  int_unsigned (d ++ r)
  = if within_limit d
    then match skip_spaces r with
         | EmptyString => Some (decimal d)
         | String _ _ => None
         end
    else None.
Proof.
  intros [Hne Hd] Hr. destruct d as [|c d]; [congruence|].
  pose proof Hd as Hd'. rewrite all_digits_cons in Hd'.
  apply andb_prop in Hd' as [Hc _].
  pose proof (int_digits_all (String c d) r 0 0 Hd Hr) as E.
  rewrite N.add_0_l in E.
  unfold int_unsigned, within_limit. cbn [String.append] in E |- *.
  rewrite Hc, E. reflexivity.
Qed.

(** [int()] of a run of at most 4300 digits is its decimal value. *)
Lemma int_digits_string (d : string) :
  Spec.digits d -> within_limit d = true -> int d = Some (decimal d).
Proof.
  intros Hd Hw.
  pose proof (int_digits_then d "" Hd) as E1.
  pose proof (int_unsigned_digits d "" Hd (or_introl eq_refl)) as E2.
  rewrite append_empty_r in E1, E2. rewrite E1, E2, Hw. reflexivity.
Qed.

(** [int()] refuses a longer run of digits. *)
Lemma int_digits_overlong (d : string) :
  Spec.digits d -> within_limit d = false -> int d = None.
Proof.
  intros Hd Hw.
  pose proof (int_digits_then d "" Hd) as E1.
  pose proof (int_unsigned_digits d "" Hd (or_introl eq_refl)) as E2.
  rewrite append_empty_r in E1, E2. rewrite E1, E2, Hw. reflexivity.
Qed.

(** A token that the regular expression matches is no integer literal:
    the two kinds of token do not overlap. *)
Lemma re_match_not_int (arg g1 g2 : string) :
  re_match arg = Some (g1, g2) -> int arg = None.
Proof.
  intros H. destruct (re_match_inv _ _ _ H) as (D1 & _ & rest & -> & _).
  rewrite (int_digits_then g1 _ D1).
  rewrite (int_unsigned_digits g1 ("-" ++ g2 ++ rest) D1).
  - now destruct (within_limit g1).
  - right. now exists "-"%char, (g2 ++ rest)%string.
Qed.

Lemma range_In (low high x : Z) :
  In x (range low high) <-> low <= x < high.
Proof.
  unfold range. rewrite in_map_iff. split.
  - intros (i & <- & Hi). apply in_seq in Hi. lia.
  - intros Hx. exists (Z.to_nat (x - low)). split; [lia|].
    apply in_seq. lia.
Qed.

Lemma range_length (low high : Z) :
  List.length (range low high) = Z.to_nat (high - low).
Proof. unfold range. now rewrite length_map, length_seq. Qed.

Lemma range_empty (low high : Z) : high <= low -> range low high = [].
Proof.
  intros H. unfold range. replace (Z.to_nat (high - low)) with 0%nat by lia.
  reflexivity.
Qed.

Lemma range_cons (low high : Z) :
  low < high -> range low high = low :: range (low + 1) high.
Proof.
  intros H. unfold range.
  replace (Z.to_nat (high - low)) with (S (Z.to_nat (high - (low + 1))))
    by lia.
  cbn [seq map]. f_equal; [lia|].
  rewrite <- seq_shift, map_map. apply map_ext. intros i. lia.
Qed.

Lemma range_sorted (low high : Z) : StronglySorted Z.lt (range low high).
Proof.
  remember (Z.to_nat (high - low)) as n eqn:Hn. revert low Hn.
  induction n as [|n IH]; intros low Hn.
  - rewrite range_empty by lia. constructor.
  - rewrite range_cons by lia. constructor.
    + apply IH. lia.
    + apply Forall_forall. intros x Hx. apply range_In in Hx. lia.
Qed.

Lemma range_half_open (low high : Z) : Spec.half_open low high (range low high).
Proof. split; [apply range_sorted | intros x; apply range_In]. Qed.

(** Two increasing lists with the same elements are the same list. *)
Lemma sorted_unique (l1 l2 : list Z) :
  StronglySorted Z.lt l1 -> StronglySorted Z.lt l2 ->
  (forall x, In x l1 <-> In x l2) -> l1 = l2.
Proof.
  intros H1. revert l2.
  induction H1 as [|a l1 S1 IH F1]; intros l2 H2 Hin.
  - destruct l2 as [|b l2]; [reflexivity|].
    destruct (proj2 (Hin b) (or_introl eq_refl)).
  - destruct H2 as [|b l2 S2 F2].
    + destruct (proj1 (Hin a) (or_introl eq_refl)).
    + rewrite Forall_forall in F1, F2.
      assert (E : a = b).
      { destruct (proj1 (Hin a) (or_introl eq_refl)) as [E|Ha]; [now symmetry|].
        destruct (proj2 (Hin b) (or_introl eq_refl)) as [E|Hb]; [exact E|].
        specialize (F1 _ Hb). specialize (F2 _ Ha). lia. }
      subst b. f_equal. apply IH; [exact S2|]. intros x. split; intros Hx.
      * destruct (proj1 (Hin x) (or_intror Hx)) as [E|Hx']; [|exact Hx'].
        specialize (F1 _ Hx). lia.
      * destruct (proj2 (Hin x) (or_intror Hx)) as [E|Hx']; [|exact Hx'].
        specialize (F2 _ Hx). lia.
Qed.

Lemma half_open_range (low high : Z) (xs : list Z) :
  Spec.half_open low high xs -> xs = range low high.
Proof.
  intros [Hs Hin]. apply sorted_unique; [exact Hs | apply range_sorted|].
  intros x. now rewrite Hin, range_In.
Qed.

(** [int()] of a signed run of digits. *)
Lemma int_signed_digits (d : string) :
  Spec.digits d -> within_limit d = true ->
  int ("+" ++ d) = Some (decimal d) /\ int ("-" ++ d) = Some (- decimal d).
Proof.
  intros Hd Hw.
  pose proof (int_unsigned_digits d "" Hd (or_introl eq_refl)) as E.
  rewrite append_empty_r, Hw in E. cbn [skip_spaces] in E.
  split.
  - change (int ("+" ++ d)) with (int_unsigned d). exact E.
  - change (int ("-" ++ d)) with (option_map Z.opp (int_unsigned d)).
    now rewrite E.
Qed.

End PyFacts.

(** ** The effect monad *)

Section MonadFacts.

Context {World : Type} {collab : Collaborators World}.

#[local] Abbreviation M := (@M World).

Lemma bind_ok {A B : Type} (m : M A) (k : A -> M B) (s s1 : State)
      (a : A) (t1 : list event) :
  m s = (Ok a, s1, t1) ->
  bind m k s = (let '(r2, s2, t2) := k a s1 in (r2, s2, t1 ++ t2)).
Proof. unfold bind. now intros ->. Qed.

Lemma bind_raise {A B : Type} (m : M A) (k : A -> M B) (s s1 : State)
      (e : exn) (t1 : list event) :
  m s = (Raise e, s1, t1) -> bind m k s = (Raise e, s1, t1).
Proof. unfold bind. now intros ->. Qed.

Lemma for_each_app {A B : Type} (body : A -> B -> M B) (l1 l2 : list A)
      (acc : B) (s : State) :
  for_each body (l1 ++ l2) acc s
  = bind (for_each body l1 acc) (for_each body l2) s.
Proof.
  revert acc s. induction l1 as [|x l1 IH]; intros acc s.
  - cbn [app for_each]. unfold bind, ret.
    now destruct (for_each body l2 acc s) as [[r s2] t2].
  - cbn [app for_each]. unfold bind.
    destruct (body x acc s) as [[[acc'|e] s1] t1]; [|reflexivity].
    rewrite IH. unfold bind.
    destruct (for_each body l1 acc' s1) as [[[acc''|e] s2] t2];
      [|reflexivity].
    destruct (for_each body l2 acc'' s2) as [[r s3] t3].
    now rewrite app_assoc.
Qed.

End MonadFacts.

(** ** The range parser *)

Section ParserFacts.

Context {World : Type}.

Implicit Types (s : @State World) (prs : list Z).

Lemma parse_body_range (arg g1 g2 : string) prs s :
  Py.re_match arg = Some (g1, g2) ->
  Py.within_limit g1 = true -> Py.within_limit g2 = true ->
  parse_pr_numbers_body arg prs s
  = (Ok (prs ++ Py.range (Py.decimal g1) (Py.decimal g2)), s, []).
Proof.
  intros H W1 W2. destruct (re_match_inv _ _ _ H) as (D1 & D2 & _).
  unfold parse_pr_numbers_body. rewrite H. unfold int.
  rewrite (int_digits_string _ D1 W1), (int_digits_string _ D2 W2).
  reflexivity.
Qed.

(** A range token with a group that [int()] refuses: the [ValueError] of
    line 19 is outside the [try] and leaves the parser. *)
Lemma parse_body_overlong (arg : string) prs s :
  Spec.overlong arg ->
  parse_pr_numbers_body arg prs s = (Raise ValueError, s, []).
Proof.
  intros (g1 & g2 & H & W). destruct (re_match_inv _ _ _ H) as (D1 & D2 & _).
  unfold parse_pr_numbers_body. rewrite H. unfold int.
  destruct (Py.within_limit g1) eqn:W1.
  - destruct (Py.within_limit g2) eqn:W2; [discriminate W|].
    rewrite (int_digits_string _ D1 W1), (int_digits_overlong _ D2 W2).
    reflexivity.
  - rewrite (int_digits_overlong _ D1 W1). reflexivity.
Qed.

Lemma parse_body_literal (arg : string) (n : Z) prs s :
  Py.int arg = Some n ->
  parse_pr_numbers_body arg prs s = (Ok (prs ++ [n]), s, []).
Proof.
  intros H. unfold parse_pr_numbers_body.
  destruct (Py.re_match arg) as [[g1 g2]|] eqn:Hm.
  - apply re_match_not_int in Hm. congruence.
  - unfold int. rewrite H. reflexivity.
Qed.

Lemma parse_body_malformed (arg : string) prs s :
  Spec.malformed arg ->
  parse_pr_numbers_body arg prs s
  = (Raise (SystemExit 1), s, [Stderr "expected number, got None"]).
Proof.
  intros [Hm Hi]. unfold parse_pr_numbers_body. rewrite Hm.
  unfold int. rewrite Hi. reflexivity.
Qed.

Lemma parse_body_expands (token : string) (x : list Z) prs s :
  Spec.expands token x ->
  parse_pr_numbers_body token prs s = (Ok (prs ++ x), s, []).
Proof.
  intros [low high rest xs Hl Hh Hr Wl Wh Hxs | tok n Hn].
  - pose proof (re_match_range low high rest Hl Hh) as Hm.
    unfold Spec.leading_digits in Hm.
    rewrite (span_digits_no_digit _ Hr) in Hm. cbn [fst] in Hm.
    rewrite append_empty_r in Hm.
    rewrite (parse_body_range _ low high prs s Hm Wl Wh).
    now rewrite (half_open_range _ _ _ Hxs).
  - now apply parse_body_literal.
Qed.

Lemma parse_loop_expands (tokens : list string) (xs : list (list Z)) prs s :
  Forall2 Spec.expands tokens xs ->
  for_each parse_pr_numbers_body tokens prs s = (Ok (prs ++ List.concat xs), s, []).
Proof.
  intros H. revert prs. induction H as [|tok x toks xs Hx _ IH]; intros prs.
  - cbn. now rewrite app_nil_r.
  - cbn [for_each List.concat].
    rewrite (bind_ok _ _ _ _ _ _ (parse_body_expands tok x prs s Hx)).
    rewrite IH, app_assoc. reflexivity.
Qed.

(** Every token is a range, an integer literal, malformed, or a range
    with a group beyond the limit of [int()]. *)
Lemma token_cases (token : string) :
  (exists x, Spec.expands token x) \/ Spec.malformed token
  \/ Spec.overlong token.
Proof.
  destruct (Py.re_match token) as [[g1 g2]|] eqn:Hm.
  - destruct (Py.within_limit g1 && Py.within_limit g2) eqn:W.
    + left. apply andb_prop in W as [W1 W2].
      destruct (re_match_inv _ _ _ Hm) as (D1 & D2 & rest & -> & Hr).
      eexists. apply Spec.expands_range; trivial. apply range_half_open.
    + right. right. now exists g1, g2.
  - destruct (Py.int token) as [n|] eqn:Hi.
    + left. exists [n]. now apply Spec.expands_literal.
    + right. left. now split.
Qed.

(** The parser either returns a list, silently, or stops at the first
    token that is malformed or has a group beyond the limit of [int()]:
    with status 1 and a notice at the former, with the [ValueError] of
    [int()] and nothing printed at the latter. *)
Lemma parse_pr_numbers_cases (tokens : list string) s :
  (exists xs, Forall2 Spec.expands tokens xs
              /\ parse_pr_numbers tokens s = (Ok (List.concat xs), s, []))
  \/ (exists pre bad post,
         tokens = pre ++ bad :: post /\ Spec.malformed bad
         /\ parse_pr_numbers tokens s
            = (Raise (SystemExit 1), s,
               [Stderr "expected number, got None"]))
  \/ (exists pre long post,
         tokens = pre ++ long :: post /\ Spec.overlong long
         /\ parse_pr_numbers tokens s = (Raise ValueError, s, [])).
Proof.
  assert (G : forall prs,
    (exists xs, Forall2 Spec.expands tokens xs
       /\ for_each parse_pr_numbers_body tokens prs s
          = (Ok (prs ++ List.concat xs), s, []))
    \/ (exists pre bad post,
           tokens = pre ++ bad :: post /\ Spec.malformed bad
           /\ for_each parse_pr_numbers_body tokens prs s
              = (Raise (SystemExit 1), s,
                 [Stderr "expected number, got None"]))
    \/ (exists pre long post,
           tokens = pre ++ long :: post /\ Spec.overlong long
           /\ for_each parse_pr_numbers_body tokens prs s
              = (Raise ValueError, s, []))).
  { induction tokens as [|tok toks IH]; intros prs.
    - left. exists []. split; [constructor|]. cbn. now rewrite app_nil_r.
    - destruct (token_cases tok) as [[x Hx]|[Hbad|Hlong]].
      + cbn [for_each].
        rewrite (bind_ok _ _ _ _ _ _ (parse_body_expands tok x prs s Hx)).
        destruct (IH (prs ++ x))
          as [(xs & Hxs & E)|[(pre & bad & post & -> & Hb & E)
                             |(pre & long & post & -> & Hb & E)]].
        * left. exists (x :: xs). split; [now constructor|].
          rewrite E. cbn [List.concat]. now rewrite app_assoc.
        * right. left. exists (tok :: pre), bad, post.
          split; [reflexivity|]. split; [exact Hb|]. now rewrite E.
        * right. right. exists (tok :: pre), long, post.
          split; [reflexivity|]. split; [exact Hb|]. now rewrite E.
      + right. left. exists [], tok, toks.
        split; [reflexivity|]. split; [exact Hbad|]. cbn [for_each].
        now rewrite (bind_raise _ _ _ _ _ _ (parse_body_malformed tok prs s Hbad)).
      + right. right. exists [], tok, toks.
        split; [reflexivity|]. split; [exact Hlong|]. cbn [for_each].
        now rewrite (bind_raise _ _ _ _ _ _ (parse_body_overlong tok prs s Hlong)). }
  exact (G []).
Qed.



(** A range token [a-b] with [a >= b], both within the limit of [int()],
    leaves the list as it is. *)
Lemma parse_body_backward_range (a b : string) prs s :
  Spec.digits a -> Spec.digits b ->
  Py.within_limit a = true -> Py.within_limit b = true ->
  Py.decimal a >= Py.decimal b ->
  parse_pr_numbers_body (a ++ "-" ++ b)%string prs s = (Ok prs, s, []).
Proof.
  intros Ha Hb Wa Wb Hab.
  pose proof (re_match_range a b "" Ha Hb) as Hm.
  rewrite append_empty_r in Hm. unfold Spec.leading_digits in Hm.
  cbn [Py.span_digits fst] in Hm. rewrite append_empty_r in Hm.
  rewrite (parse_body_range _ _ _ prs s Hm Wa Wb).
  rewrite range_empty by lia. now rewrite app_nil_r.
Qed.

(** C10. A range token [a-b] with [a >= b], both runs of digits within the
    limit of [int()], adds nothing to the list: the parser goes on as if
    the token were not there, without reporting and without leaving. *)
Theorem parse_pr_numbers_empty_range (a b : string) (pre post : list string) s :
  Spec.digits a -> Spec.digits b ->
  Py.within_limit a = true -> Py.within_limit b = true ->
  Py.decimal a >= Py.decimal b ->
  parse_pr_numbers [(a ++ "-" ++ b)%string] s = (Ok [], s, [])
  /\ parse_pr_numbers (pre ++ (a ++ "-" ++ b)%string :: post) s
     = parse_pr_numbers (pre ++ post) s.
Proof.
  intros Ha Hb Wa Wb Hab.
  split.
  - unfold parse_pr_numbers. cbn [for_each].
    now rewrite (bind_ok _ _ _ _ _ _
                   (parse_body_backward_range a b [] s Ha Hb Wa Wb Hab)).
  - unfold parse_pr_numbers. rewrite !for_each_app. unfold bind.
    destruct (for_each parse_pr_numbers_body pre [] s) as [[[prs|e] s1] t1];
      [|reflexivity].
    cbn [for_each].
    rewrite (bind_ok _ _ _ _ _ _
               (parse_body_backward_range a b prs s1 Ha Hb Wa Wb Hab)).
    now destruct (for_each parse_pr_numbers_body post prs s1) as [[r s2] t2].
Qed.

End ParserFacts.

(** ** The batch orchestrator: the build phase *)

Section BuildPhase.

Context {World : Type} {collab : Collaborators World}.

Implicit Types (s : @State World) (args : argparse.Namespace).

Lemma build_step_not_entered args pr ctxs s e w1 :
  Worktree_enter ("pr-" ++ Py.str pr)%string (world s) = (Raise e, w1) ->
  build_step args pr ctxs s
  = (Raise e, mkState w1 (environ_NIX_PATH s) (exit_stack s),
     [WorktreeEnter ("pr-" ++ Py.str pr)%string (Raise e)]).
Proof.
  intros H. unfold build_step, pr_build_body, bind, enter_context_Worktree,
    call. now rewrite H.
Qed.

Lemma build_step_built args pr ctxs s w w1 attrs w2 :
  Worktree_enter ("pr-" ++ Py.str pr)%string (world s) = (Ok w, w1) ->
  Review_build_pr (review_in args w) pr w1 = (Ok attrs, w2) ->
  build_step args pr ctxs s
  = (Ok (ctxs ++ [(pr, w, attrs)]),
     mkState w2 (environ_NIX_PATH s) (w :: exit_stack s),
     Batch.build_events args (Batch.Built pr w attrs)).
Proof.
  intros H1 H2. unfold review_in in H2.
  unfold build_step, pr_build_body, bind, enter_context_Worktree,
    try_except, call, ret.
  rewrite H1. cbn. now rewrite H2.
Qed.

Lemma build_step_failed args pr ctxs s w w1 w2 :
  Worktree_enter ("pr-" ++ Py.str pr)%string (world s) = (Ok w, w1) ->
  Review_build_pr (review_in args w) pr w1 = (Raise CalledProcessError, w2) ->
  build_step args pr ctxs s
  = (Ok ctxs, mkState w2 (environ_NIX_PATH s) (w :: exit_stack s),
     Batch.build_events args (Batch.Failed pr w)).
Proof.
  intros H1 H2. unfold review_in in H2.
  unfold build_step, pr_build_body, bind, enter_context_Worktree,
    try_except, call, ret.
  rewrite H1. cbn. now rewrite H2.
Qed.

Lemma build_step_crashed args pr ctxs s w w1 e w2 :
  Worktree_enter ("pr-" ++ Py.str pr)%string (world s) = (Ok w, w1) ->
  Review_build_pr (review_in args w) pr w1 = (Raise e, w2) ->
  e <> CalledProcessError ->
  build_step args pr ctxs s
  = (Raise e, mkState w2 (environ_NIX_PATH s) (w :: exit_stack s),
     [WorktreeEnter ("pr-" ++ Py.str pr)%string (Ok w);
      BuildPr (review_in args w) pr (Raise e)]).
Proof.
  intros H1 H2 He. unfold review_in in *.
  unfold build_step, pr_build_body, bind, enter_context_Worktree,
    try_except, call, ret.
  rewrite H1. cbn. rewrite H2. cbn.
  destruct e; try reflexivity. congruence.
Qed.

(** One change either gets an outcome, and the loop goes on, or makes the
    loop stop with an exception. *)
Lemma build_step_cases args pr ctxs s :
  (exists o s1,
      Batch.change o = pr
      /\ build_step args pr ctxs s
         = (Ok (ctxs ++ Batch.retained [o]), s1, Batch.build_events args o)
      /\ exit_stack s1 = Batch.workspace o :: exit_stack s
      /\ environ_NIX_PATH s1 = environ_NIX_PATH s)
  \/ (exists e s1 ta,
         build_step args pr ctxs s = (Raise e, s1, ta)
         /\ Batch.abort_events args pr e ta
         /\ exit_stack s1 = rev (Trace.acquired ta) ++ exit_stack s
         /\ environ_NIX_PATH s1 = environ_NIX_PATH s).
Proof.
  destruct (Worktree_enter ("pr-" ++ Py.str pr)%string (world s))
    as [[w|e] w1] eqn:H1.
  - destruct (Review_build_pr (review_in args w) pr w1) as [[attrs|e] w2] eqn:H2.
    + left. exists (Batch.Built pr w attrs). eexists. split; [reflexivity|].
      split; [now apply (build_step_built _ _ _ _ _ _ _ _ H1 H2)|].
      now split.
    + destruct (is_CalledProcessError e) eqn:He.
      * destruct e; try discriminate He.
        left. exists (Batch.Failed pr w). eexists. split; [reflexivity|].
        split.
        -- rewrite (build_step_failed _ _ _ _ _ _ _ H1 H2).
           cbn [Batch.retained flat_map]. now rewrite app_nil_r.
        -- now split.
      * right. assert (He' : e <> CalledProcessError) by (intros ->; discriminate).
        exists e. do 2 eexists.
        split; [now apply (build_step_crashed _ _ _ _ _ _ _ _ H1 H2 He')|].
        split; [now apply Batch.abort_build|]. now split.
  - right. exists e. do 2 eexists.
    split; [now apply (build_step_not_entered _ _ _ _ _ _ H1)|].
    split; [apply Batch.abort_enter|]. now split.
Qed.

Lemma acquired_app (t1 t2 : list event) :
  Trace.acquired (t1 ++ t2) = Trace.acquired t1 ++ Trace.acquired t2.
Proof. apply flat_map_app. Qed.

Lemma released_app (t1 t2 : list event) :
  Trace.released (t1 ++ t2) = Trace.released t1 ++ Trace.released t2.
Proof. apply flat_map_app. Qed.

Lemma acquired_build_events args (os : list Batch.outcome) :
  Trace.acquired (flat_map (Batch.build_events args) os)
  = map Batch.workspace os.
Proof.
  induction os as [|o os IH]; [reflexivity|].
  cbn [flat_map map]. rewrite acquired_app, IH. now destruct o.
Qed.

Lemma retained_app (os1 os2 : list Batch.outcome) :
  Batch.retained (os1 ++ os2) = Batch.retained os1 ++ Batch.retained os2.
Proof. apply flat_map_app. Qed.

(** The build phase: the changes are taken in order; each gets an outcome
    until, possibly, one makes the loop stop with an exception.  The exit
    stack holds the workspaces entered, last first. *)
Lemma build_loop_run args (prs : list Z) ctxs s r s' t :
  for_each (build_step args) prs ctxs s = (r, s', t) ->
  exit_stack s' = rev (Trace.acquired t) ++ exit_stack s
  /\ environ_NIX_PATH s' = environ_NIX_PATH s
  /\ exists os : list Batch.outcome,
      (map Batch.change os = prs
       /\ r = Ok (ctxs ++ Batch.retained os)
       /\ t = flat_map (Batch.build_events args) os)
      \/ (exists pr e rest ta,
             prs = map Batch.change os ++ pr :: rest
             /\ r = Raise e
             /\ Batch.abort_events args pr e ta
             /\ t = flat_map (Batch.build_events args) os ++ ta).
Proof.
  revert ctxs s r s' t.
  induction prs as [|pr prs IH]; intros ctxs s r s' t H.
  - cbn in H. injection H as <- <- <-. repeat split.
    exists []. left. cbn. now rewrite app_nil_r.
  - cbn [for_each] in H.
    destruct (build_step_cases args pr ctxs s)
      as [(o & s1 & Ho & E & Hst & Henv)|(e & s1 & ta & E & Hab & Hst & Henv)].
    + rewrite (bind_ok _ _ _ _ _ _ E) in H.
      destruct (for_each (build_step args) prs (ctxs ++ Batch.retained [o]) s1)
        as [[r2 s2] t2] eqn:E2.
      injection H as <- <- <-.
      destruct (IH _ _ _ _ _ E2) as (Hst2 & Henv2 & os & Hos).
      split.
      { rewrite Hst2, Hst, acquired_app, rev_app_distr, <- app_assoc.
        f_equal. now destruct o. }
      split; [congruence|].
      exists (o :: os).
      destruct Hos as [(Hm & Hr & Ht)|(pr' & e & rest & ta & Hm & Hr & Hab & Ht)].
      * left. cbn [map flat_map]. rewrite Ho, Hm, Hr, Ht.
        repeat split. f_equal.
        change (o :: os) with ([o] ++ os).
        now rewrite retained_app, app_assoc.
      * right. exists pr', e, rest, ta. cbn [map flat_map].
        rewrite Ho, Hm, Hr, Ht. repeat split; trivial.
        now rewrite app_assoc.
    + rewrite (bind_raise _ _ _ _ _ _ E) in H. injection H as <- <- <-.
      repeat split; trivial.
      exists []. right. exists pr, e, prs, ta. now repeat split.
Qed.

End BuildPhase.

(** ** Which events a computation can emit *)

Section Emits.

Context {World : Type} {collab : Collaborators World}.

Variable p : event -> bool.

#[local] Abbreviation M := (@M World).

Lemma emits_ret {A : Type} (a : A) : emits p (ret a : M A).
Proof. now intros s. Qed.

Lemma emits_raise {A : Type} (e : exn) : emits p (raise e : M A).
Proof. now intros s. Qed.

Lemma emits_emit (e : event) : p e = true -> emits p (emit e : M unit).
Proof. intros H s. cbn. now rewrite H. Qed.

Lemma emits_call {A : Type} (f : World -> result A * World)
      (ev : result A -> event) :
  (forall r, p (ev r) = true) -> emits p (call f ev).
Proof.
  intros H s. unfold call. destruct (f (world s)) as [r w]. cbn.
  now rewrite H.
Qed.

Lemma emits_bind {A B : Type} (m : M A) (k : A -> M B) :
  emits p m -> (forall a, emits p (k a)) -> emits p (bind m k).
Proof.
  intros Hm Hk s. unfold bind. specialize (Hm s).
  destruct (m s) as [[[a|e] s1] t1]; cbn [snd] in *; [|exact Hm].
  specialize (Hk a s1). destruct (k a s1) as [[r2 s2] t2]. cbn [snd] in *.
  now rewrite forallb_app, Hm, Hk.
Qed.

Lemma emits_try_except {A : Type} (body : M A) (handler : exn -> option (M A)) :
  emits p body ->
  (forall e h, handler e = Some h -> emits p h) ->
  emits p (try_except body handler).
Proof.
  intros Hb Hh s. unfold try_except. specialize (Hb s).
  destruct (body s) as [[[a|e] s1] t1]; cbn [snd] in *; [exact Hb|].
  destruct (handler e) as [h|] eqn:E; [|exact Hb].
  specialize (Hh e h E s1). destruct (h s1) as [[r2 s2] t2].
  cbn [snd] in *. now rewrite forallb_app, Hb, Hh.
Qed.

Lemma emits_except {A : Type} (is_E : exn -> bool) (h : M A) :
  emits p h -> forall e h', except is_E h e = Some h' -> emits p h'.
Proof.
  intros H e h'. unfold except. destruct (is_E e); [|discriminate].
  now intros [= <-].
Qed.

Lemma emits_for_each {A B : Type} (body : A -> B -> M B) (l : list A) :
  (forall x acc, emits p (body x acc)) ->
  forall acc, emits p (for_each body l acc).
Proof.
  intros H. induction l as [|x l IH]; intros acc; cbn [for_each].
  - apply emits_ret.
  - apply emits_bind; [apply H | exact IH].
Qed.

Lemma emits_unwind (stack : list Worktree) (w : World) :
  (forall wt, p (WorktreeExit wt) = true) ->
  forallb p (snd (unwind stack w)) = true.
Proof.
  intros H. revert w. induction stack as [|wt stack IH]; intros w; cbn.
  - reflexivity.
  - specialize (IH (Worktree_exit wt w)).
    destruct (unwind stack (Worktree_exit wt w)) as [w' t]. cbn in *.
    now rewrite H, IH.
Qed.

Lemma emits_with_ExitStack {A : Type} (body : M A) :
  (forall wt, p (WorktreeExit wt) = true) ->
  emits p body -> emits p (with_ExitStack body).
Proof.
  intros H Hb s. unfold with_ExitStack.
  specialize (Hb (mkState (world s) (environ_NIX_PATH s) [])).
  destruct (body _) as [[r s1] t1]. cbn [snd] in Hb.
  pose proof (emits_unwind (exit_stack s1) (world s1) H) as Hu.
  destruct (unwind (exit_stack s1) (world s1)) as [w2 t2]. cbn [snd] in *.
  now rewrite forallb_app, Hb, Hu.
Qed.

Lemma emits_with_Worktree {A : Type} (name : string) (body : Worktree -> M A) :
  (forall r, p (WorktreeEnter name r) = true) ->
  (forall wt, p (WorktreeExit wt) = true) ->
  (forall wt, emits p (body wt)) ->
  emits p (with_Worktree name body).
Proof.
  intros H1 H2 Hb. unfold with_Worktree. apply emits_bind.
  - now apply emits_call.
  - intros wt s. specialize (Hb wt s). destruct (body wt s) as [[r s1] t1].
    cbn [snd] in *. rewrite forallb_app, Hb. cbn. now rewrite H2.
Qed.

Lemma emits_enter_context (name : string) :
  (forall r, p (WorktreeEnter name r) = true) ->
  emits p (enter_context_Worktree name).
Proof.
  intros H s. unfold enter_context_Worktree.
  pose proof (emits_call (Worktree_enter name) (WorktreeEnter name) H s) as Hc.
  destruct (call _ _ s) as [[[w|e] s1] t1]; exact Hc.
Qed.

Lemma emits_setenv (value : string) :
  p (Setenv "NIX_PATH" value) = true ->
  emits p (setenv_NIX_PATH value : M unit).
Proof. intros H s. cbn. now rewrite H. Qed.

Lemma emits_nix_shell (attrs : Attrs) :
  (forall np r, p (NixShell attrs np r) = true) -> emits p (nix_shell attrs).
Proof. intros H s. unfold nix_shell. now apply emits_call. Qed.

Lemma emits_parse_pr_numbers (tokens : list string) :
  (forall line, p (Stderr line) = true) ->
  emits p (parse_pr_numbers tokens : M (list Z)).
Proof.
  intros H. unfold parse_pr_numbers. apply emits_for_each.
  intros arg prs. unfold parse_pr_numbers_body.
  destruct (Py.re_match arg) as [[g1 g2]|].
  - unfold int.
    repeat (apply emits_bind; [|intros ?]);
      repeat match goal with |- emits _ (match ?x with _ => _ end) =>
               destruct x end;
      auto using emits_ret, emits_raise.
  - apply emits_try_except.
    + unfold int. destruct (Py.int arg);
        auto using emits_bind, emits_ret, emits_raise.
    + apply emits_except. apply emits_bind; [now apply emits_emit|].
      intros _. apply emits_raise.
Qed.

End Emits.

(** ** The batch orchestrator: the shell phase and the whole command *)

Section BatchRun.

Context {World : Type} {collab : Collaborators World}.

Implicit Types (s : @State World) (args : argparse.Namespace).

Lemma shell_step c s :
  pr_shell_body c tt s
  = (let '(pr, w, attrs) := c in
     let (r, w1) := nix_shell_run attrs (Some w.(nixpkgs_path)) (world s) in
     (r, mkState w1 (Some w.(nixpkgs_path)) (exit_stack s),
      [Stdout (pr_url pr); Setenv "NIX_PATH" w.(nixpkgs_path);
       NixShell attrs (Some w.(nixpkgs_path)) r])).
Proof.
  destruct c as [[pr w] attrs].
  unfold pr_shell_body, bind, print, emit, setenv_NIX_PATH, nix_shell, call.
  cbn. now destruct (nix_shell_run attrs _ (world s)) as [[[]|e] w1].
Qed.

(** The shell phase leaves the exit stack alone and, when no launch
    raises, hands every retained success to the shell, in order. *)
Lemma shell_loop_run (ctxs : list context) s r s' t :
  for_each pr_shell_body ctxs tt s = (r, s', t) ->
  exit_stack s' = exit_stack s
  /\ (Trace.no_fatal t = true ->
      r = Ok tt /\ t = flat_map Batch.shell_events ctxs).
Proof.
  revert s r s' t. induction ctxs as [|c ctxs IH]; intros s r s' t H.
  - cbn in H. injection H as <- <- <-. now repeat split.
  - cbn [for_each] in H. unfold bind in H. rewrite shell_step in H.
    destruct c as [[pr w] attrs].
    destruct (nix_shell_run attrs _ (world s)) as [[[]|e] w1].
    + destruct (for_each pr_shell_body ctxs tt _) as [[r2 s2] t2] eqn:E2.
      injection H as <- <- <-.
      destruct (IH _ _ _ _ E2) as [Hst Hok]. split; [exact Hst|].
      intros Hnf. cbn in Hnf. destruct (Hok Hnf) as [-> ->].
      now split.
    + injection H as <- <- <-. split; [reflexivity|]. discriminate.
Qed.

Lemma unwind_events (stack : list Worktree) (w : World) :
  snd (unwind stack w) = map WorktreeExit stack.
Proof.
  revert w. induction stack as [|wt stack IH]; intros w; cbn; [reflexivity|].
  specialize (IH (Worktree_exit wt w)).
  destruct (unwind stack (Worktree_exit wt w)). cbn in *. now rewrite IH.
Qed.

(** How [pr_command] runs once the change numbers are parsed: the build
    phase, then, unless it raised, the shell phase and the final test;
    in every case the exit stack is unwound at the very end. *)
Lemma pr_command_run args s prs r s' t :
  parse_pr_numbers args.(argparse.number) s = (Ok prs, s, []) ->
  pr_command args s = (r, s', t) ->
  exists rb sb tb,
    for_each (build_step args) prs [] (fresh_stack s) = (rb, sb, tb)
    /\ match rb with
       | Raise e =>
           r = Raise e
           /\ t = tb ++ map WorktreeExit (rev (Trace.acquired tb))
       | Ok contexts =>
           exists rs ss ts,
             for_each pr_shell_body contexts tt sb = (rs, ss, ts)
             /\ t = tb ++ ts ++ map WorktreeExit (rev (Trace.acquired tb))
             /\ r = match rs with
                    | Raise e => Raise e
                    | Ok _ =>
                        if Nat.eqb (List.length contexts) (List.length prs)
                        then Ok tt else Raise (SystemExit 1)
                    end
       end.
Proof.
  intros Hp H. unfold pr_command in H.
  rewrite (bind_ok _ _ _ _ _ _ Hp) in H. cbn [app] in H.
  unfold with_ExitStack, pr_command_scope in H.
  fold (build_step args) in H. fold (fresh_stack s) in H.
  destruct (for_each (build_step args) prs [] (fresh_stack s))
    as [[rb sb] tb] eqn:Eb.
  exists rb, sb, tb. split; [reflexivity|].
  destruct (build_loop_run _ _ _ _ _ _ _ Eb) as (Hst & _ & _).
  cbn [fresh_stack exit_stack] in Hst. rewrite app_nil_r in Hst.
  destruct rb as [contexts|e].
  - rewrite (bind_ok _ _ _ _ _ _ Eb) in H.
    destruct (for_each pr_shell_body contexts tt sb) as [[rs ss] ts] eqn:Es.
    exists rs, ss, ts. split; [reflexivity|].
    destruct (shell_loop_run _ _ _ _ _ Es) as [Hss _].
    unfold bind in H. rewrite Es in H.
    assert (Hu : snd (unwind (exit_stack ss) (world ss))
                 = map WorktreeExit (rev (Trace.acquired tb))).
    { now rewrite unwind_events, Hss, Hst. }
    destruct rs as [[]|e];
      [destruct (Nat.eqb (List.length contexts) (List.length prs))|];
      cbn in H;
      destruct (unwind (exit_stack ss) (world ss)) as [w2 t2];
      cbn [snd] in Hu; subst t2; injection H as <- <- <-;
      (split; [|reflexivity]); now rewrite ?app_nil_r, <- ?app_assoc.
  - rewrite (bind_raise _ _ _ _ _ _ Eb) in H.
    pose proof (unwind_events (exit_stack sb) (world sb)) as Hu.
    destruct (unwind (exit_stack sb) (world sb)) as [w2 t2].
    cbn [snd] in Hu. injection H as <- <- <-.
    rewrite Hu, Hst. now split.
Qed.

End BatchRun.

(** ** Counting in traces *)

Section Counting.

Lemma count_app (p : event -> bool) (t1 t2 : list event) :
  Trace.count p (t1 ++ t2) = (Trace.count p t1 + Trace.count p t2)%nat.
Proof. unfold Trace.count. now rewrite filter_app, length_app. Qed.

Lemma count_none (p : event -> bool) (t : list event) :
  forallb (fun e => negb (p e)) t = true -> Trace.count p t = 0%nat.
Proof.
  unfold Trace.count. induction t as [|e t IH]; [reflexivity|].
  cbn. destruct (p e); [discriminate|]. exact IH.
Qed.

Lemma forallb_weaken (p q : event -> bool) (t : list event) :
  (forall e, p e = true -> q e = true) ->
  forallb p t = true -> forallb q t = true.
Proof.
  intros H. rewrite !forallb_forall. intros Hp e He. now apply H, Hp.
Qed.

Lemma no_fatal_app (t1 t2 : list event) :
  Trace.no_fatal (t1 ++ t2) = Trace.no_fatal t1 && Trace.no_fatal t2.
Proof. apply forallb_app. Qed.

Lemma acquired_none (t : list event) :
  forallb (fun e => negb (Trace.is_worktree_enter e)) t = true ->
  Trace.acquired t = [].
Proof.
  induction t as [|e t IH]; [reflexivity|]. cbn.
  destruct e; cbn; try discriminate; exact IH.
Qed.

Lemma released_none (t : list event) :
  forallb (fun e => negb (Trace.is_worktree_exit e)) t = true ->
  Trace.released t = [].
Proof.
  induction t as [|e t IH]; [reflexivity|]. cbn.
  destruct e; cbn; try discriminate; exact IH.
Qed.

Lemma build_phase_events args (os : list Batch.outcome) :
  forallb Trace.is_build_phase (flat_map (Batch.build_events args) os) = true.
Proof.
  induction os as [|o os IH]; [reflexivity|].
  cbn [flat_map]. rewrite forallb_app, IH. now destruct o.
Qed.

Lemma shell_phase_events (cs : list context) :
  forallb Trace.is_shell_phase (flat_map Batch.shell_events cs) = true.
Proof.
  induction cs as [|[[pr w] attrs] cs IH]; [reflexivity|]. exact IH.
Qed.

Lemma build_failures_build_events args (os : list Batch.outcome) :
  Trace.build_failures (flat_map (Batch.build_events args) os)
  = Batch.failures os.
Proof.
  induction os as [|o os IH]; [reflexivity|].
  cbn [flat_map]. unfold Trace.build_failures, Batch.failures in *.
  rewrite count_app, IH. now destruct o.
Qed.

Lemma shell_handoffs_shell_events (cs : list context) :
  Trace.shell_handoffs (flat_map Batch.shell_events cs) = List.length cs.
Proof.
  induction cs as [|[[pr w] attrs] cs IH]; [reflexivity|].
  unfold Trace.shell_handoffs, Trace.count in *. cbn. now rewrite IH.
Qed.

Lemma count_worktree_exits (p : event -> bool) (ws : list Worktree) :
  (forall w, p (WorktreeExit w) = false) ->
  Trace.count p (map WorktreeExit ws) = 0%nat.
Proof.
  intros H. induction ws as [|w ws IH]; [reflexivity|].
  unfold Trace.count in *. cbn. now rewrite H.
Qed.

Lemma retained_length (os : list Batch.outcome) :
  (List.length (Batch.retained os) + Batch.failures os)%nat = List.length os.
Proof.
  induction os as [|o os IH]; [reflexivity|].
  change (o :: os) with ([o] ++ os).
  unfold Batch.failures in *.
  rewrite retained_app, filter_app, !length_app.
  destruct o; cbn; lia.
Qed.

Lemma retained_subsequence (os : list Batch.outcome) :
  Batch.subsequence (map (fun c : context => fst (fst c)) (Batch.retained os))
                    (map Batch.change os).
Proof.
  induction os as [|o os IH]; [constructor|].
  destruct o; cbn; now constructor.
Qed.

Lemma nonfatal_build_failures args (os : list Batch.outcome) :
  Trace.build_failures
    (flat_map (Batch.build_events args) os
     ++ flat_map Batch.shell_events (Batch.retained os)
     ++ map WorktreeExit (rev (map Batch.workspace os)))
  = Batch.failures os.
Proof.
  unfold Trace.build_failures. rewrite !count_app.
  fold (Trace.build_failures (flat_map (Batch.build_events args) os)).
  rewrite build_failures_build_events.
  rewrite (count_none _ (flat_map Batch.shell_events _)).
  - rewrite count_worktree_exits by reflexivity. lia.
  - apply (forallb_weaken Trace.is_shell_phase); [|apply shell_phase_events].
    now intros [].
Qed.

Lemma nonfatal_shell_handoffs args (os : list Batch.outcome) :
  Trace.shell_handoffs
    (flat_map (Batch.build_events args) os
     ++ flat_map Batch.shell_events (Batch.retained os)
     ++ map WorktreeExit (rev (map Batch.workspace os)))
  = List.length (Batch.retained os).
Proof.
  unfold Trace.shell_handoffs. rewrite !count_app.
  fold (Trace.shell_handoffs (flat_map Batch.shell_events (Batch.retained os))).
  rewrite shell_handoffs_shell_events.
  rewrite (count_none _ (flat_map (Batch.build_events args) _)).
  - rewrite count_worktree_exits by reflexivity. lia.
  - apply (forallb_weaken Trace.is_build_phase); [|apply build_phase_events].
    now intros [].
Qed.

Lemma abort_events_fatal args (pr : Z) (e : exn) (ta : list event) :
  Batch.abort_events args pr e ta -> Trace.no_fatal ta = false.
Proof.
  intros [|w He]; [reflexivity|]. cbn. destruct e; try reflexivity.
  congruence.
Qed.

End Counting.

(** ** The batch orchestrator: the claims *)

Section BatchClaims.

Context {World : Type} {collab : Collaborators World}.

Implicit Types (s : @State World) (args : argparse.Namespace).

Lemma emits_build_loop (p : event -> bool) args (prs : list Z) ctxs :
  (forall e, Trace.is_build_phase e = true -> p e = true) ->
  emits p (for_each (build_step args) prs ctxs).
Proof.
  intros H. apply emits_for_each. intros pr acc.
  unfold build_step, pr_build_body. apply emits_bind.
  - apply emits_enter_context. intros r. now apply H.
  - intros w. apply emits_try_except.
    + apply emits_bind; [|intros attrs; apply emits_ret].
      apply emits_call. intros r. now apply H.
    + apply emits_except. apply emits_bind; [|intros _; apply emits_ret].
      apply emits_emit. now apply H.
Qed.

Lemma emits_shell_loop (p : event -> bool) (ctxs : list context) :
  (forall e, Trace.is_shell_phase e = true -> p e = true) ->
  emits p (for_each pr_shell_body ctxs tt).
Proof.
  intros H. apply emits_for_each. intros [[pr w] attrs] [].
  unfold pr_shell_body. apply emits_bind; [apply emits_emit; now apply H|].
  intros _. apply emits_bind; [apply emits_setenv; now apply H|].
  intros _. apply emits_nix_shell. intros np r. now apply H.
Qed.

Lemma emits_pr_command (p : event -> bool) args :
  (forall e, Trace.is_buildenv e = false -> p e = true) ->
  emits p (pr_command args).
Proof.
  intros H. unfold pr_command. apply emits_bind.
  - apply emits_parse_pr_numbers. intros line. now apply H.
  - intros prs. apply emits_with_ExitStack; [intros w; now apply H|].
    unfold pr_command_scope. apply emits_bind.
    + apply emits_build_loop. intros [] E; try discriminate E; now apply H.
    + intros ctxs. apply emits_bind.
      * apply emits_shell_loop. intros [] E; try discriminate E; now apply H.
      * intros _. destruct (negb _); [apply emits_raise | apply emits_ret].
Qed.

Lemma emits_rev_command (p : event -> bool) args :
  (forall e, Trace.is_buildenv e = false -> p e = true) ->
  emits p (rev_command args).
Proof.
  intros H. unfold rev_command. apply emits_bind.
  - apply emits_call. intros r. now apply H.
  - intros commit. apply emits_with_Worktree.
    + intros r. now apply H.
    + intros w. now apply H.
    + intros w. apply emits_call. intros r. now apply H.
Qed.

(** A run of [pr_command] in which nothing fatal happens: every change
    is built or fails to build, every success is handed to the shell, and
    the workspaces are left at the end. *)
Lemma pr_command_nonfatal args s prs r s' t :
  parse_pr_numbers args.(argparse.number) s = (Ok prs, s, []) ->
  pr_command args s = (r, s', t) ->
  Trace.no_fatal t = true ->
  exists (os : list Batch.outcome) sb,
    map Batch.change os = prs
    /\ for_each (build_step args) prs [] (fresh_stack s)
       = (Ok (Batch.retained os), sb, flat_map (Batch.build_events args) os)
    /\ t = flat_map (Batch.build_events args) os
           ++ flat_map Batch.shell_events (Batch.retained os)
           ++ map WorktreeExit (rev (map Batch.workspace os))
    /\ r = if Nat.eqb (List.length (Batch.retained os)) (List.length prs)
           then Ok tt else Raise (SystemExit 1).
Proof.
  intros Hp H Hnf.
  destruct (pr_command_run _ _ _ _ _ _ Hp H) as (rb & sb & tb & Eb & Hrun).
  destruct (build_loop_run _ _ _ _ _ _ _ Eb) as (_ & _ & os & Hos).
  destruct Hos as [(Hm & Hr & Ht)|(pr & e & rest & ta & Hm & Hr & Hab & Ht)].
  - subst rb tb. cbn [app] in *.
    destruct Hrun as (rs & ss & ts & Es & Ht & Hr).
    rewrite Ht, !no_fatal_app in Hnf.
    apply andb_prop in Hnf as [_ Hnf]. apply andb_prop in Hnf as [Hnf _].
    destruct (shell_loop_run _ _ _ _ _ Es) as [_ Hok].
    destruct (Hok Hnf) as [-> ->].
    exists os, sb. rewrite acquired_build_events in Ht. now repeat split.
  - subst rb. destruct Hrun as [_ Ht']. rewrite Ht', Ht, !no_fatal_app in Hnf.
    rewrite (abort_events_fatal _ _ _ _ Hab) in Hnf.
    rewrite andb_false_r in Hnf. discriminate.
Qed.

(** C1. In a run of the batch over N parsed change numbers, when the only
    thing that goes wrong is that K builds raise the build-failure signal,
    the list of retained successes has N - K elements, so never more than
    N; the exit status is zero exactly when K = 0, and it is non-zero
    exactly when fewer than N successes were retained. *)
Theorem pr_command_exit_status args s prs r s' t :
  parse_pr_numbers args.(argparse.number) s = (Ok prs, s, []) ->
  pr_command args s = (r, s', t) ->
  Trace.no_fatal t = true ->
  exists contexts : list context,
    outcome_of (for_each (build_step args) prs [] (fresh_stack s))
    = Ok contexts
    /\ (List.length contexts + Trace.build_failures t)%nat = List.length prs
    /\ (List.length contexts <= List.length prs)%nat
    /\ (exit_status r = 0 <-> Trace.build_failures t = 0%nat)
    /\ (exit_status r <> 0 <-> (List.length contexts < List.length prs)%nat).
Proof.
  intros Hp H Hnf.
  destruct (pr_command_nonfatal _ _ _ _ _ _ Hp H Hnf)
    as (os & sb & Hm & Eb & Ht & Hr).
  exists (Batch.retained os). rewrite Eb. split; [reflexivity|].
  pose proof (nonfatal_build_failures args os) as HK. rewrite <- Ht in HK.
  pose proof (retained_length os) as HL.
  assert (HN : List.length prs = List.length os).
  { now rewrite <- Hm, length_map. }
  rewrite HK, HN. rewrite HN in Hr.
  split; [exact HL|]. split; [lia|].
  destruct (Nat.eqb_spec (List.length (Batch.retained os)) (List.length os))
    as [E|E]; subst r; cbn; split; split; intros; (lia || discriminate).
Qed.

(** C3. In such a run over N changes of which K fail to build, the shell
    launcher is invoked N - K times, for the successes in the order of the
    request; just before each launch [NIX_PATH] is set to the path of the
    workspace that was entered for that change, and the launcher gets the
    package set that the build of that change returned. *)
Theorem pr_command_shell_handoffs args s prs r s' t :
  parse_pr_numbers args.(argparse.number) s = (Ok prs, s, []) ->
  pr_command args s = (r, s', t) ->
  Trace.no_fatal t = true ->
  exists os : list Batch.outcome,
    map Batch.change os = prs
    /\ t = flat_map (Batch.build_events args) os
           ++ flat_map Batch.shell_events (Batch.retained os)
           ++ map WorktreeExit (rev (map Batch.workspace os))
    /\ Batch.subsequence
         (map (fun c : context => fst (fst c)) (Batch.retained os)) prs
    /\ Trace.build_failures t = Batch.failures os
    /\ Trace.shell_handoffs t
       = (List.length prs - Trace.build_failures t)%nat.
Proof.
  intros Hp H Hnf.
  destruct (pr_command_nonfatal _ _ _ _ _ _ Hp H Hnf)
    as (os & sb & Hm & Eb & Ht & Hr).
  exists os. split; [exact Hm|]. split; [exact Ht|].
  split; [rewrite <- Hm; apply retained_subsequence|].
  pose proof (nonfatal_build_failures args os) as HK. rewrite <- Ht in HK.
  split; [exact HK|]. rewrite HK, Ht, nonfatal_shell_handoffs.
  pose proof (retained_length os). rewrite <- Hm, length_map. lia.
Qed.

Lemma failed_build_workspace args (os : list Batch.outcome) rv pr :
  In (BuildPr rv pr (Raise CalledProcessError))
     (flat_map (Batch.build_events args) os) ->
  exists w, rv = review_in args w /\ In (Batch.Failed pr w) os.
Proof.
  rewrite in_flat_map. intros (o & Ho & Hin).
  destruct o as [pr' w attrs|pr' w]; cbn in Hin.
  - destruct Hin as [E|[E|[]]]; discriminate E.
  - destruct Hin as [E|[E|[E|[]]]]; try discriminate E.
    injection E as <- <-. now exists w.
Qed.

(** C4. Whatever happens in the batch, the workspaces are left only at
    the very end of the command, when the exit stack unwinds: the events
    of the command are a body without any exit, followed by the exits of
    exactly the workspaces that the body entered, last entered first.  In
    particular the workspace of a change whose build fails is among them:
    it is not left when the failure is handled. *)
Theorem pr_command_releases args s :
  exists t_body : list event,
    events_of (pr_command args s)
    = t_body ++ map WorktreeExit (rev (Trace.acquired t_body))
    /\ Trace.released t_body = []
    /\ forall rv pr,
        In (BuildPr rv pr (Raise CalledProcessError))
           (events_of (pr_command args s)) ->
        exists w, rv = review_in args w
                  /\ In (WorktreeEnter ("pr-" ++ Py.str pr)%string (Ok w)) t_body
                  /\ In w (Trace.acquired t_body).
Proof.
  destruct (parse_pr_numbers_cases args.(argparse.number) s)
    as [(xs & _ & Hp)|[(pre & bad & post & _ & _ & Hp)
                      |(pre & long & post & _ & _ & Hp)]].
  - destruct (pr_command args s) as [[r s'] t] eqn:H. unfold events_of.
    cbn [snd].
    destruct (pr_command_run _ _ _ _ _ _ Hp H) as (rb & sb & tb & Eb & Hrun).
    assert (Hrel : Trace.released tb = []).
    { apply released_none.
      pose proof (emits_build_loop (fun e => negb (Trace.is_worktree_exit e))
                    args (List.concat xs) []) as Hem.
      specialize (Hem ltac:(now intros []) (fresh_stack s)).
      now rewrite Eb in Hem. }
    destruct (build_loop_run _ _ _ _ _ _ _ Eb) as (_ & _ & os & Hos).
    assert (Hfail : forall rv pr,
               In (BuildPr rv pr (Raise CalledProcessError)) tb ->
               exists w, rv = review_in args w
                 /\ In (WorktreeEnter ("pr-" ++ Py.str pr)%string (Ok w)) tb
                 /\ In w (Trace.acquired tb)).
    { intros rv pr Hin.
      assert (Hin' : In (BuildPr rv pr (Raise CalledProcessError))
                        (flat_map (Batch.build_events args) os)).
      { destruct Hos as [(_ & _ & ->)|(pr' & e & rest & ta & _ & _ & Hab & ->)];
          [exact Hin|].
        apply in_app_or in Hin as [Hin|Hin]; [exact Hin|].
        destruct Hab as [|w He]; cbn in Hin.
        - destruct Hin as [E|[]]; discriminate E.
        - destruct Hin as [E|[E|[]]]; try discriminate E.
          injection E as _ _ Ee. contradiction. }
      destruct (failed_build_workspace _ _ _ _ Hin') as (w & -> & Hw).
      exists w. split; [reflexivity|].
      assert (Hsub : forall x, In x (flat_map (Batch.build_events args) os)
                               -> In x tb).
      { destruct Hos as [(_ & _ & ->)|(pr' & e & rest & ta & _ & _ & _ & ->)];
          intros x Hx; [exact Hx | apply in_or_app; now left]. }
      split.
      - apply Hsub, in_flat_map. exists (Batch.Failed pr w).
        split; [exact Hw | now left].
      - assert (Hacq : In w (map Batch.workspace os)).
        { apply in_map_iff. now exists (Batch.Failed pr w). }
        rewrite <- (acquired_build_events args) in Hacq.
        destruct Hos as [(_ & _ & ->)|(pr' & e & rest & ta & _ & _ & _ & ->)];
          [exact Hacq|].
        rewrite acquired_app. apply in_or_app. now left. }
    destruct rb as [contexts|e].
    + destruct Hrun as (rs & ss & ts & Es & Ht & _).
      pose proof (emits_shell_loop
                    (fun e => negb (Trace.is_worktree_enter e)
                              && negb (Trace.is_worktree_exit e)
                              && negb (Trace.is_review e))
                    contexts ltac:(now intros []) sb) as Hem.
      rewrite Es in Hem. cbn [snd] in Hem.
      assert (Hacq : Trace.acquired ts = []).
      { apply acquired_none. revert Hem. apply forallb_weaken.
        intros e He. apply andb_prop in He as [He _].
        now apply andb_prop in He as [He _]. }
      assert (Hrel' : Trace.released ts = []).
      { apply released_none. revert Hem. apply forallb_weaken.
        intros e He. apply andb_prop in He as [He _].
        now apply andb_prop in He as [_ He]. }
      exists (tb ++ ts). rewrite acquired_app, Hacq, app_nil_r.
      rewrite released_app, Hrel, Hrel', Ht, <- app_assoc.
      split; [reflexivity|]. split; [reflexivity|].
      intros rv pr Hin.
      assert (Hin' : In (BuildPr rv pr (Raise CalledProcessError)) tb).
      { apply in_app_or in Hin as [Hin|Hin]; [exact Hin|].
        apply in_app_or in Hin as [Hin|Hin].
        - rewrite forallb_forall in Hem. specialize (Hem _ Hin).
          discriminate Hem.
        - apply in_map_iff in Hin as (w & E & _). discriminate E. }
      destruct (Hfail rv pr Hin') as (w & -> & H1 & H2).
      exists w. split; [reflexivity|].
      split; [apply in_or_app; now left | exact H2].
    + destruct Hrun as [_ Ht]. exists tb. rewrite Ht.
      split; [reflexivity|]. split; [exact Hrel|].
      intros rv pr Hin. apply Hfail.
      apply in_app_or in Hin as [Hin|Hin]; [exact Hin|].
      apply in_map_iff in Hin as (w & E & _). discriminate E.
  - unfold pr_command. rewrite (bind_raise _ _ _ _ _ _ Hp). unfold events_of.
    cbn [snd]. exists [Stderr "expected number, got None"].
    split; [reflexivity|]. split; [reflexivity|].
    intros rv pr [E|[]]. discriminate E.
  - unfold pr_command. rewrite (bind_raise _ _ _ _ _ _ Hp). unfold events_of.
    cbn [snd]. exists []. split; [reflexivity|]. split; [reflexivity|].
    intros rv pr [].
Qed.

(** C5. In the first loop only the build-failure signal raised by the
    build is handled: the change then gets a notice with its URL on the
    error stream, is not retained, and the loop goes on with the next
    change.  Any exception raised when the workspace is entered, and any
    other exception raised by the build, ends the command with that
    exception at once: no further change is touched, no shell is
    launched, and all that follows is the exits of the workspaces entered
    so far. *)
Theorem pr_command_propagation args s prs r s' t :
  parse_pr_numbers args.(argparse.number) s = (Ok prs, s, []) ->
  pr_command args s = (r, s', t) ->
  exists os : list Batch.outcome,
    (map Batch.change os = prs
     /\ outcome_of (for_each (build_step args) prs [] (fresh_stack s))
        = Ok (Batch.retained os)
     /\ exists t_shell,
         forallb Trace.is_shell_phase t_shell = true
         /\ t = flat_map (Batch.build_events args) os ++ t_shell
                ++ map WorktreeExit (rev (map Batch.workspace os)))
    \/ (exists pr e rest ta,
           prs = map Batch.change os ++ pr :: rest
           /\ Batch.abort_events args pr e ta
           /\ r = Raise e
           /\ t = flat_map (Batch.build_events args) os ++ ta
                  ++ map WorktreeExit
                       (rev (map Batch.workspace os ++ Trace.acquired ta))).
Proof.
  intros Hp H.
  destruct (pr_command_run _ _ _ _ _ _ Hp H) as (rb & sb & tb & Eb & Hrun).
  destruct (build_loop_run _ _ _ _ _ _ _ Eb) as (_ & _ & os & Hos).
  exists os.
  destruct Hos as [(Hm & Hr & Ht)|(pr & e & rest & ta & Hm & Hr & Hab & Ht)].
  - left. subst rb tb. cbn [app] in *.
    destruct Hrun as (rs & ss & ts & Es & Ht & _).
    split; [exact Hm|]. rewrite Eb. split; [reflexivity|].
    exists ts. split.
    + pose proof (emits_shell_loop Trace.is_shell_phase (Batch.retained os)
                    ltac:(trivial) sb) as Hem.
      now rewrite Es in Hem.
    + now rewrite acquired_build_events in Ht.
  - right. subst rb tb. destruct Hrun as [-> Ht].
    exists pr, e, rest, ta. repeat split; trivial.
    rewrite Ht, acquired_app, acquired_build_events, <- app_assoc.
    reflexivity.
Qed.

End BatchClaims.

(** ** The single-commit orchestrator and the entry point *)

Section Entry.

Context {World : Type} {collab : Collaborators World}.

Implicit Types (s : @State World) (args : argparse.Namespace).

(** C7. When the ref does not resolve, [rev_command] ends with the
    exception of the resolver right there: this is its only event, no
    workspace is entered and nothing is reviewed.  With the exception that
    [check=True] raises the exit status is 1. *)
Theorem rev_command_unresolved args s e w1 :
  git_rev_parse_verify args.(argparse.commit) (world s) = (Raise e, w1) ->
  rev_command args s
  = (Raise e, mkState w1 (environ_NIX_PATH s) (exit_stack s),
     [GitRevParse args.(argparse.commit) (Raise e)])
  /\ Trace.count Trace.is_worktree_enter (events_of (rev_command args s))
     = 0%nat
  /\ Trace.count Trace.is_review (events_of (rev_command args s)) = 0%nat
  /\ (e = CalledProcessError ->
      exit_status (outcome_of (rev_command args s)) = 1).
Proof.
  intros H.
  assert (E : rev_command args s
              = (Raise e, mkState w1 (environ_NIX_PATH s) (exit_stack s),
                 [GitRevParse args.(argparse.commit) (Raise e)])).
  { unfold rev_command, bind, call. now rewrite H. }
  rewrite E. repeat split. now intros ->.
Qed.

Lemma emits_call_func (p : event -> bool) args :
  (forall e, Trace.is_buildenv e = false -> p e = true) ->
  emits p (call_func args).
Proof.
  intros H. unfold call_func. destruct (argparse.func args).
  - now apply emits_pr_command.
  - now apply emits_rev_command.
Qed.

(** C8. Once the arguments are parsed, [main] enters the environment
    scope, runs the handler of the chosen subcommand inside it and leaves
    the scope, however the handler ends: the events of [main] are the
    entry, the events of the handler and the exit, the handler emits
    neither an entry nor an exit of its own, and [main] ends as the
    handler ended. *)
Theorem main_buildenv_scope command raw_args s args w1 :
  parser_parse_args command raw_args (world s) = (Ok args, w1) ->
  exists rb sb tb,
    call_func args (mkState (Buildenv_enter w1) (environ_NIX_PATH s)
                            (exit_stack s))
    = (rb, sb, tb)
    /\ main command raw_args s
       = (rb,
          mkState (Buildenv_exit (world sb)) (environ_NIX_PATH sb)
                  (exit_stack sb),
          ParseArgs command raw_args (Ok args)
          :: BuildenvEnter :: tb ++ [BuildenvExit])
    /\ Trace.count Trace.is_buildenv tb = 0%nat
    /\ Trace.count Trace.is_buildenv_enter
         (events_of (main command raw_args s)) = 1%nat
    /\ Trace.count Trace.is_buildenv_exit
         (events_of (main command raw_args s)) = 1%nat.
Proof.
  intros Hp.
  destruct (call_func args (mkState (Buildenv_enter w1) (environ_NIX_PATH s)
                                    (exit_stack s)))
    as [[rb sb] tb] eqn:E.
  exists rb, sb, tb. split; [reflexivity|].
  assert (Em : main command raw_args s
               = (rb,
                  mkState (Buildenv_exit (world sb)) (environ_NIX_PATH sb)
                          (exit_stack sb),
                  ParseArgs command raw_args (Ok args)
                  :: BuildenvEnter :: tb ++ [BuildenvExit])).
  { unfold main, bind, parse_args, call, with_Buildenv. rewrite Hp.
    cbn [world environ_NIX_PATH exit_stack]. now rewrite E. }
  pose proof (emits_call_func (fun e => negb (Trace.is_buildenv e)) args
                ltac:(intros ev Hev; cbn beta; now rewrite Hev)
                (mkState (Buildenv_enter w1) (environ_NIX_PATH s)
                         (exit_stack s))) as Hem.
  rewrite E in Hem. cbn [snd] in Hem.
  split; [exact Em|]. split; [now apply count_none|].
  rewrite Em. unfold events_of. cbn [snd].
  change (ParseArgs command raw_args (Ok args)
          :: BuildenvEnter :: tb ++ [BuildenvExit])
    with ([ParseArgs command raw_args (Ok args); BuildenvEnter]
          ++ tb ++ [BuildenvExit]).
  rewrite !count_app.
  rewrite (count_none Trace.is_buildenv_enter tb),
          (count_none Trace.is_buildenv_exit tb).
  - now split.
  - revert Hem. apply forallb_weaken. intros ev. unfold Trace.is_buildenv.
    destruct (Trace.is_buildenv_exit ev); [|reflexivity].
    now rewrite orb_true_r.
  - revert Hem. apply forallb_weaken. intros ev. unfold Trace.is_buildenv.
    now destruct (Trace.is_buildenv_enter ev).
Qed.


End Entry.

(** ** Runs on concrete inputs *)

Example int_examples :
  map Py.int ["5"; " 5 "; "+5"; "-5"; "- 5"; "1_0"; "_1"; "1_"; "1__0";
              "007"; "5-7"; ""; "+"; "abc"; "5 6"]
  = [Some 5; Some 5; Some 5; Some (-5); None; Some 10; None; None; None;
     Some 7; None; None; None; None; None].
Proof. reflexivity. Qed.

Example re_match_examples :
  map Py.re_match ["5-7x"; "5-78x"; "5-7-9"; "x5-7"; " 5-7"; "5-"; "5--7";
                   "5-7_8"; "12"]
  = [Some ("5", "7"); Some ("5", "78"); Some ("5", "7"); None; None; None;
     None; Some ("5", "7"); None].
Proof. reflexivity. Qed.

Example str_examples : map Py.str [0; 7; 120; -5] = ["0"; "7"; "120"; "-5"].
Proof. reflexivity. Qed.

Example range_examples :
  map (fun p => Py.range (fst p) (snd p)) [(20, 22); (7, 5); (5, 5)]
  = [[20; 21]; []; []].
Proof. reflexivity. Qed.


Example parse_example :
  parse_pr_numbers ["10"; "20-22"] Scenario.start
  = (Ok [10; 20; 21], Scenario.start, []).
Proof. reflexivity. Qed.

Example parse_range_suffix_example :
  parse_pr_numbers ["5-7x"] Scenario.start = (Ok [5; 6], Scenario.start, []).
Proof. reflexivity. Qed.

Example parse_duplicates_example :
  parse_pr_numbers ["3"; "1-4"; "2"; " 3 "; "+1_0"] Scenario.start
  = (Ok [3; 1; 2; 3; 2; 3; 10], Scenario.start, []).
Proof. reflexivity. Qed.

Example parse_backward_range_example :
  parse_pr_numbers ["7-5"; "5-5"; "3"] Scenario.start
  = (Ok [3], Scenario.start, []).
Proof. reflexivity. Qed.

(** C6. On the token [abc] the parser prints a notice and leaves with
    status 1, before any workspace is entered; the notice reads
    [expected number, got None]: it shows the result of the failed match
    and not the token. *)
Theorem parse_pr_numbers_abc :
  parse_pr_numbers ["abc"] Scenario.start
  = (Raise (SystemExit 1), Scenario.start,
     [Stderr "expected number, got None"])
  /\ pr_command (collab := Scenario.collaborators [] [])
                (Scenario.pr_args ["abc"]) Scenario.start
     = (Raise (SystemExit 1), Scenario.start,
        [Stderr "expected number, got None"])
  /\ exit_status (outcome_of
                    (pr_command (collab := Scenario.collaborators [] [])
                                (Scenario.pr_args ["abc"]) Scenario.start))
     = 1.
Proof. split; [reflexivity | split; vm_compute; reflexivity]. Qed.



(** The parser on [7-5], alone and between [1] and [3]. *)
Lemma parse_pr_numbers_empty_range_witness :
  parse_pr_numbers ["7-5"] Scenario.start = (Ok [], Scenario.start, [])
  /\ parse_pr_numbers ["1"; "7-5"; "3"] Scenario.start
     = parse_pr_numbers ["1"; "3"] Scenario.start.
Proof.
  change (parse_pr_numbers [("7" ++ "-" ++ "5")%string] Scenario.start
          = (Ok [], Scenario.start, [])
          /\ parse_pr_numbers (["1"] ++ ("7" ++ "-" ++ "5")%string :: ["3"])
                              Scenario.start
             = parse_pr_numbers (["1"] ++ ["3"]) Scenario.start).
  apply parse_pr_numbers_empty_range;
    [split; [discriminate | reflexivity]
    |split; [discriminate | reflexivity]
    |reflexivity | reflexivity
    |vm_compute; discriminate].
Defined.

(** [pr 1-4] with a failing build of change 2: one failure, status 1. *)
Lemma pr_command_exit_status_witness :
  Trace.no_fatal (events_of Scenario.run_one_failure) = true
  /\ Trace.build_failures (events_of Scenario.run_one_failure) = 1%nat
  /\ exit_status (outcome_of Scenario.run_one_failure) <> 0.
Proof.
  assert (Hp : parse_pr_numbers ["1-4"] Scenario.start
               = (Ok [1; 2; 3], Scenario.start, []))
    by (vm_compute; reflexivity).
  assert (Hr : pr_command (collab := Scenario.collaborators [2] [])
                          (Scenario.pr_args ["1-4"]) Scenario.start
               = (outcome_of Scenario.run_one_failure,
                  snd (fst Scenario.run_one_failure),
                  events_of Scenario.run_one_failure))
    by (vm_compute; reflexivity).
  assert (Hnf : Trace.no_fatal (events_of Scenario.run_one_failure) = true)
    by (vm_compute; reflexivity).
  split; [exact Hnf|]. split; [vm_compute; reflexivity|].
  destruct (pr_command_exit_status (Scenario.pr_args ["1-4"]) _ _ _ _ _
                                   Hp Hr Hnf)
    as (contexts & _ & _ & _ & H0 & _).
  intros E. apply H0 in E. vm_compute in E. discriminate E.
Defined.

(** [pr 1-4] with a failing build of change 2: two shells, for 1 and 3. *)
Lemma pr_command_shell_handoffs_witness :
  exists os : list Batch.outcome,
    map Batch.change os = [1; 2; 3]
    /\ events_of Scenario.run_one_failure
       = flat_map (Batch.build_events (Scenario.pr_args ["1-4"])) os
         ++ flat_map Batch.shell_events (Batch.retained os)
         ++ map WorktreeExit (rev (map Batch.workspace os))
    /\ Batch.subsequence
         (map (fun c : context => fst (fst c)) (Batch.retained os)) [1; 2; 3]
    /\ Trace.build_failures (events_of Scenario.run_one_failure)
       = Batch.failures os
    /\ Trace.shell_handoffs (events_of Scenario.run_one_failure)
       = (3 - Trace.build_failures (events_of Scenario.run_one_failure))%nat.
Proof.
  assert (Hp : parse_pr_numbers ["1-4"] Scenario.start
               = (Ok [1; 2; 3], Scenario.start, []))
    by (vm_compute; reflexivity).
  assert (Hr : pr_command (collab := Scenario.collaborators [2] [])
                          (Scenario.pr_args ["1-4"]) Scenario.start
               = (outcome_of Scenario.run_one_failure,
                  snd (fst Scenario.run_one_failure),
                  events_of Scenario.run_one_failure))
    by (vm_compute; reflexivity).
  assert (Hnf : Trace.no_fatal (events_of Scenario.run_one_failure) = true)
    by (vm_compute; reflexivity).
  exact (pr_command_shell_handoffs (Scenario.pr_args ["1-4"]) _ _ _ _ _
                                   Hp Hr Hnf).
Defined.

(** [pr 1-5] when change 2 fails to build and the build of change 3 raises
    [KeyError]: the command ends with [KeyError], after the workspaces of
    changes 1, 2 and 3 were entered; change 4 is not touched. *)
Lemma pr_command_propagation_witness :
  outcome_of Scenario.run_crash = Raise (OtherException "KeyError")
  /\ Trace.count Trace.is_worktree_enter (events_of Scenario.run_crash) = 3%nat
  /\ exists os : list Batch.outcome,
      (map Batch.change os = [1; 2; 3; 4]
       /\ outcome_of (for_each (build_step
                                  (collab := Scenario.collaborators [2] [3])
                                  (Scenario.pr_args ["1-5"]))
                               [1; 2; 3; 4] [] (fresh_stack Scenario.start))
          = Ok (Batch.retained os)
       /\ exists t_shell,
           forallb Trace.is_shell_phase t_shell = true
           /\ events_of Scenario.run_crash
              = flat_map (Batch.build_events (Scenario.pr_args ["1-5"])) os
                ++ t_shell ++ map WorktreeExit (rev (map Batch.workspace os)))
      \/ (exists pr e rest ta,
             [1; 2; 3; 4] = map Batch.change os ++ pr :: rest
             /\ Batch.abort_events (Scenario.pr_args ["1-5"]) pr e ta
             /\ outcome_of Scenario.run_crash = Raise e
             /\ events_of Scenario.run_crash
                = flat_map (Batch.build_events (Scenario.pr_args ["1-5"])) os
                  ++ ta
                  ++ map WorktreeExit
                       (rev (map Batch.workspace os ++ Trace.acquired ta))).
Proof.
  assert (Hp : parse_pr_numbers ["1-5"] Scenario.start
               = (Ok [1; 2; 3; 4], Scenario.start, []))
    by (vm_compute; reflexivity).
  assert (Hr : pr_command (collab := Scenario.collaborators [2] [3])
                          (Scenario.pr_args ["1-5"]) Scenario.start
               = (outcome_of Scenario.run_crash,
                  snd (fst Scenario.run_crash),
                  events_of Scenario.run_crash))
    by (vm_compute; reflexivity).
  split; [vm_compute; reflexivity|]. split; [vm_compute; reflexivity|].
  exact (pr_command_propagation (Scenario.pr_args ["1-5"]) _ _ _ _ _ Hp Hr).
Defined.

(** [rev nope]: the ref does not resolve. *)
Lemma rev_command_unresolved_witness :
  rev_command (collab := Scenario.collaborators [] [])
              (Scenario.rev_args "nope") Scenario.start
  = (Raise CalledProcessError, Scenario.start,
     [GitRevParse "nope" (Raise CalledProcessError)])
  /\ exit_status (outcome_of
                    (rev_command (collab := Scenario.collaborators [] [])
                                 (Scenario.rev_args "nope") Scenario.start))
     = 1.
Proof.
  assert (Hg : git_rev_parse_verify
                 (Collaborators := Scenario.collaborators [] [])
                 (argparse.commit (Scenario.rev_args "nope"))
                 (world Scenario.start)
               = (Raise CalledProcessError, []))
    by (vm_compute; reflexivity).
  destruct (rev_command_unresolved (Scenario.rev_args "nope") _ _ _ Hg)
    as (H1 & _ & _ & H2).
  split; [exact H1 | exact (H2 eq_refl)].
Defined.

(** [nix-review pr 2 3] when change 2 fails to build: the scope is entered
    once and left once, around a handler that ends with [SystemExit 1]. *)
Lemma main_buildenv_scope_witness :
  exists rb sb tb,
    call_func (collab := Scenario.collaborators [2] [])
              (Scenario.pr_args ["2"; "3"]) Scenario.start
    = (rb, sb, tb)
    /\ main (collab := Scenario.collaborators [2] [])
            "nix-review" ["pr"; "2"; "3"] Scenario.start
       = (rb, mkState (world sb) (environ_NIX_PATH sb) (exit_stack sb),
          ParseArgs "nix-review" ["pr"; "2"; "3"]
                    (Ok (Scenario.pr_args ["2"; "3"]))
          :: BuildenvEnter :: tb ++ [BuildenvExit])
    /\ Trace.count Trace.is_buildenv tb = 0%nat
    /\ Trace.count Trace.is_buildenv_enter
         (events_of (main (collab := Scenario.collaborators [2] [])
                          "nix-review" ["pr"; "2"; "3"] Scenario.start))
       = 1%nat
    /\ Trace.count Trace.is_buildenv_exit
         (events_of (main (collab := Scenario.collaborators [2] [])
                          "nix-review" ["pr"; "2"; "3"] Scenario.start))
       = 1%nat.
Proof.
  assert (Hp : parser_parse_args
                 (Collaborators := Scenario.collaborators [2] [])
                 "nix-review" ["pr"; "2"; "3"] (world Scenario.start)
               = (Ok (Scenario.pr_args ["2"; "3"]), []))
    by (vm_compute; reflexivity).
  exact (main_buildenv_scope _ _ _ _ _ Hp).
Defined.



(** 4301 zeros and [5], a dash and [1]: a range [a-b] with [a >= b] on
    which the parser ends with the [ValueError] of [int()]. *)
Lemma parse_pr_numbers_empty_range_counterexample :
  Spec.digits (Long.zeros ++ "5") /\ Spec.digits "1"
  /\ Py.decimal (Long.zeros ++ "5") >= Py.decimal "1"
  /\ Long.long_backward_range = ((Long.zeros ++ "5") ++ "-" ++ "1")%string
  /\ parse_pr_numbers [Long.long_backward_range] Scenario.start
     = (Raise ValueError, Scenario.start, []).
Proof.
  split; [split; [discriminate | vm_compute; reflexivity]|].
  split; [split; [discriminate | reflexivity]|].
  split; [vm_compute; discriminate|].
  split; vm_compute; reflexivity.
Qed.

(** [nix-review] without a subcommand: the argument parser leaves with
    status 2 before the [with] statement, and the environment scope is
    neither entered nor left. *)
Lemma main_buildenv_scope_counterexample :
  outcome_of (main (collab := Scenario.collaborators [] [])
                   "nix-review" [] Scenario.start)
  = Raise (SystemExit 2)
  /\ Trace.count Trace.is_buildenv_enter
       (events_of (main (collab := Scenario.collaborators [] [])
                        "nix-review" [] Scenario.start))
     = 0%nat
  /\ Trace.count Trace.is_buildenv_exit
       (events_of (main (collab := Scenario.collaborators [] [])
                        "nix-review" [] Scenario.start))
     = 0%nat.
Proof. repeat split; vm_compute; reflexivity. Qed.

Example int_limit_examples :
  map Py.int [Long.copies 4300 "0"; Long.zeros;
              ("0_" ++ Long.copies 4299 "0")%string;
              (" -" ++ Long.copies 4300 "0" ++ " ")%string;
              (" +" ++ Long.zeros)%string]
  = [Some 0; None; Some 0; Some 0; None].
Proof. vm_compute. reflexivity. Qed.

Example main_exit_paths :
  map (fun raw =>
         let run := main (collab := Scenario.collaborators [2] [3])
                         "nix-review" raw Scenario.start in
         (exit_status (outcome_of run),
          Trace.count Trace.is_buildenv_enter (events_of run),
          last (events_of run) BuildenvEnter))
      [["pr"; "1"]; ["pr"; "2"]; ["pr"; "3"]; ["rev"; "HEAD"]; ["rev"; "nope"]]
  = [(0, 1%nat, BuildenvExit); (1, 1%nat, BuildenvExit);
     (1, 1%nat, BuildenvExit); (0, 1%nat, BuildenvExit);
     (1, 1%nat, BuildenvExit)].
Proof. vm_compute. reflexivity. Qed.

(** * Further properties *)

(** ** More on the Python primitives *)

Section MorePyFacts.

Import Py.

Lemma is_space_facts (c : ascii) :
  is_space c = true ->
  is_digit c = false /\ Ascii.eqb c "_" = false.
Proof.
  destruct c as [[] [] [] [] [] [] [] []]; vm_compute; intros H;
    try discriminate H; now split.
Qed.

Lemma skip_spaces_app (ws r : string) :
  Token.all_spaces ws = true -> skip_spaces (ws ++ r) = skip_spaces r.
Proof.
  induction ws as [|c ws IH]; [reflexivity|].
  unfold Token.all_spaces. cbn [list_ascii_of_string forallb].
  intros H. apply andb_prop in H as [Hc H].
  cbn [String.append skip_spaces]. rewrite Hc. now apply IH.
Qed.

Lemma skip_spaces_all (ws : string) :
  Token.all_spaces ws = true -> skip_spaces ws = EmptyString.
Proof.
  intros H. rewrite <- (append_empty_r ws). now rewrite skip_spaces_app.
Qed.

(** The literal after the sign, followed by white space only. *)
Lemma int_unsigned_padded (d ws : string) :
  Spec.digits d -> within_limit d = true -> Token.all_spaces ws = true ->
  int_unsigned (d ++ ws) = Some (decimal d).
Proof.
  intros Hd Hw Hws. rewrite (int_unsigned_digits d ws Hd).
  - now rewrite Hw, (skip_spaces_all ws Hws).
  - destruct ws as [|c' ws']; [now left|]. right.
    unfold Token.all_spaces in Hws. cbn [list_ascii_of_string forallb] in Hws.
    apply andb_prop in Hws as [Hc' _].
    destruct (is_space_facts c' Hc') as [H1 H2]. now exists c', ws'.
Qed.

(** [int()] skips the white space around a literal and reads its sign. *)
Lemma int_padded (ws d ws' : string) :
  Token.all_spaces ws = true -> Spec.digits d -> within_limit d = true ->
  Token.all_spaces ws' = true ->
  int (ws ++ d ++ ws') = Some (decimal d)
  /\ int (ws ++ "+" ++ d ++ ws') = Some (decimal d)
  /\ int (ws ++ "-" ++ d ++ ws') = Some (- decimal d).
Proof.
  intros Hws Hd Hw Hws'.
  pose proof (int_unsigned_padded d ws' Hd Hw Hws') as E.
  unfold int. destruct Hd as [Hne Hd]. destruct d as [|c d]; [congruence|].
  pose proof Hd as Hd'. rewrite all_digits_cons in Hd'.
  apply andb_prop in Hd' as [Hc _].
  destruct (is_digit_facts c Hc) as (Hs & Hp & Hm & _).
  repeat split; rewrite (skip_spaces_app ws _ Hws).
  - cbn [String.append skip_spaces]. rewrite Hs, Hp, Hm. exact E.
  - change (skip_spaces ("+" ++ String c d ++ ws'))
      with (String "+" (String c d ++ ws')).
    change (Ascii.eqb "+" "+") with true. cbn match. exact E.
  - change (skip_spaces ("-" ++ String c d ++ ws'))
      with (String "-" (String c d ++ ws')).
    change (Ascii.eqb "-" "+") with false. change (Ascii.eqb "-" "-") with true.
    cbn match. now rewrite E.
Qed.

(** Digits, a dash and then no digit: neither a range nor an integer. *)
Lemma dangling_range_malformed (d rest : string) :
  Spec.digits d -> Spec.starts_with_digit rest = false ->
  Spec.malformed (d ++ "-" ++ rest).
Proof.
  intros Hd Hr. split.
  - destruct Hd as [Hne Hd].
    unfold re_match. rewrite (span_digits_app d _ Hd).
    change ("-" ++ rest)%string with (String "-" rest).
    cbn [span_digits]. change (is_digit "-") with false. cbn [fst snd].
    rewrite append_empty_r. destruct d as [|c d]; [congruence|].
    change (Ascii.eqb "-" "-") with true. cbn match.
    now rewrite (span_digits_no_digit _ Hr).
  - rewrite (int_digits_then d _ Hd).
    rewrite (int_unsigned_digits d ("-" ++ rest) Hd).
    + now destruct (within_limit d).
    + right. now exists "-"%char, rest.
Qed.

(** The digits that [str()] writes, read back. *)
Lemma string_of_uint_digits (u : Decimal.uint) :
  all_digits (NilEmpty.string_of_uint u) = true.
Proof. induction u; cbn [NilEmpty.string_of_uint]; trivial. Qed.

Lemma of_uint_acc_value (u : Decimal.uint) (acc : positive) :
  Z.pos (Pos.of_uint_acc u acc)
  = fold_left (fun a c => 10 * a + digit_value c)
              (list_ascii_of_string (NilEmpty.string_of_uint u)) (Z.pos acc).
Proof.
  revert acc.
  induction u; intros acc;
    cbn [Pos.of_uint_acc NilEmpty.string_of_uint list_ascii_of_string
         fold_left];
    [reflexivity | rewrite IHu; f_equal; vm_compute digit_value; lia ..].
Qed.

Lemma of_uint_value (u : Decimal.uint) :
  Z.of_N (Pos.of_uint u) = decimal (NilEmpty.string_of_uint u).
Proof.
  unfold decimal.
  induction u;
    cbn [Pos.of_uint NilEmpty.string_of_uint list_ascii_of_string fold_left];
    [reflexivity | exact IHu
     | cbn [Z.of_N]; rewrite of_uint_acc_value; f_equal ..].
Qed.

(** The text of [n]: the digits of its absolute value, after a dash when
    [n] is negative. *)
Lemma str_cases (n : Z) :
  exists d : string,
    Spec.digits d /\ decimal d = Z.abs n /\ str (Z.abs n) = d
    /\ str n = if n <? 0 then String "-" d else d.
Proof.
  assert (P : forall p,
             NilZero.string_of_uint (Pos.to_uint p)
             = NilEmpty.string_of_uint (Pos.to_uint p)
             /\ Spec.digits (NilEmpty.string_of_uint (Pos.to_uint p))
             /\ decimal (NilEmpty.string_of_uint (Pos.to_uint p)) = Z.pos p).
  { intros p. pose proof (DecimalPos.Unsigned.to_uint_nonnil p) as Hn.
    split; [now destruct (Pos.to_uint p)|]. split.
    - split; [now destruct (Pos.to_uint p) | apply string_of_uint_digits].
    - now rewrite <- of_uint_value, DecimalPos.Unsigned.of_to. }
  unfold str. destruct n as [|p|p].
  - exists "0"%string. repeat split. discriminate.
  - destruct (P p) as (E & D & V).
    exists (NilEmpty.string_of_uint (Pos.to_uint p)).
    cbn [Z.abs Z.to_int NilZero.string_of_int Z.ltb Z.compare].
    now rewrite E.
  - destruct (P p) as (E & D & V).
    exists (NilEmpty.string_of_uint (Pos.to_uint p)).
    cbn [Z.abs Z.to_int NilZero.string_of_int Z.ltb Z.compare].
    now rewrite E.
Qed.

(** [int(str(n)) == n], for the [n] that [str()] writes. *)
Lemma int_str (n : Z) : str_raises n = false -> int (str n) = Some n.
Proof.
  unfold str_raises. intros Hw. apply negb_false_iff in Hw.
  destruct (str_cases n) as (d & D & V & Ea & E). rewrite Ea in Hw.
  rewrite E. destruct (Z.ltb_spec n 0) as [Hn|Hn].
  - destruct (int_signed_digits d D Hw) as [_ H].
    change (String "-" d) with ("-" ++ d)%string. rewrite H, V. f_equal. lia.
  - rewrite (int_digits_string d D Hw), V. f_equal. lia.
Qed.

(** Different integers have different texts. *)
Lemma str_inj (a b : Z) : str a = str b -> a = b.
Proof.
  intros E.
  destruct (str_cases a) as (da & [_ Da] & Va & _ & Ea).
  destruct (str_cases b) as (db & [_ Db] & Vb & _ & Eb).
  rewrite Ea, Eb in E.
  destruct (Z.ltb_spec a 0) as [Ha|Ha]; destruct (Z.ltb_spec b 0) as [Hb|Hb].
  - injection E as E. subst db. lia.
  - subst db. rewrite all_digits_cons in Db. discriminate Db.
  - subst da. rewrite all_digits_cons in Da. discriminate Da.
  - subst db. lia.
Qed.

(** What [int()] returns has at most 4300 digits. *)
Lemma digit_value_range (c : ascii) :
  is_digit c = true -> 0 <= digit_value c <= 9.
Proof.
  unfold is_digit, digit_value. intros H. apply andb_prop in H as [H1 H2].
  apply N.leb_le in H1, H2. lia.
Qed.

Lemma int_digits_bound (s : string) :
  forall (prev_us : bool) (count : N) (acc : Z) n count' rest,
    0 <= acc < 10 ^ Z.of_N count ->
    int_digits prev_us count acc s = Some (n, count', rest) ->
    0 <= n < 10 ^ Z.of_N count'.
Proof.
  induction s as [|c s IH]; intros pu count acc n count' rest Hacc H;
    cbn [int_digits] in H.
  - destruct pu; [discriminate|]. now injection H as <- <- _.
  - destruct (is_digit c) eqn:Hc.
    + apply (IH _ _ _ _ _ _) in H; [exact H|].
      rewrite N2Z.inj_succ, Z.pow_succ_r by lia.
      pose proof (digit_value_range c Hc). lia.
    + destruct (Ascii.eqb c "_").
      * destruct pu; [discriminate|]. exact (IH _ _ _ _ _ _ Hacc H).
      * destruct pu; [discriminate|]. now injection H as <- <- _.
Qed.

Lemma int_unsigned_bound (s : string) (n : Z) :
  int_unsigned s = Some n -> 0 <= n < 10 ^ Z.of_N max_str_digits.
Proof.
  unfold int_unsigned. destruct s as [|c s]; [discriminate|].
  destruct (is_digit c); [|discriminate].
  destruct (int_digits false 0 0 (String c s)) as [[[m count] rest]|] eqn:E;
    [|discriminate].
  destruct (N.leb_spec count max_str_digits) as [Hle|]; [|discriminate].
  destruct (skip_spaces rest); [|discriminate]. intros [= <-].
  assert (H0 : 0 <= 0 < 10 ^ Z.of_N 0) by (change (10 ^ Z.of_N 0) with 1; lia).
  destruct (int_digits_bound _ _ _ _ _ _ _ H0 E) as [H1 H2].
  split; [exact H1|]. eapply Z.lt_le_trans; [exact H2|].
  apply Z.pow_le_mono_r; lia.
Qed.

Lemma int_bound (s : string) (n : Z) :
  int s = Some n -> Z.abs n < 10 ^ Z.of_N max_str_digits.
Proof.
  unfold int. destruct (skip_spaces s) as [|c s']; [discriminate|].
  destruct (Ascii.eqb c "+"); [|destruct (Ascii.eqb c "-")].
  - intros H. apply int_unsigned_bound in H. lia.
  - destruct (int_unsigned s') as [m|] eqn:E; [|discriminate].
    intros [= <-]. apply int_unsigned_bound in E. lia.
  - intros H. apply int_unsigned_bound in H. lia.
Qed.

(** A run of digits is at least its first digit shifted by the others. *)
Lemma decimal_lower (d : string) (acc : Z) :
  all_digits d = true -> 0 <= acc ->
  acc * 10 ^ Z.of_nat (String.length d)
  <= fold_left (fun a c => 10 * a + digit_value c)
               (list_ascii_of_string d) acc.
Proof.
  revert acc. induction d as [|c d IH]; intros acc Hd Hacc.
  - cbn [String.length list_ascii_of_string fold_left].
    change (Z.of_nat 0) with 0. rewrite Z.pow_0_r. lia.
  - rewrite all_digits_cons in Hd. apply andb_prop in Hd as [Hc Hd].
    cbn [String.length list_ascii_of_string fold_left].
    pose proof (digit_value_range c Hc) as Hv.
    assert (H0 : 0 <= 10 * acc + digit_value c) by lia.
    specialize (IH (10 * acc + digit_value c) Hd H0).
    rewrite Nat2Z.inj_succ, Z.pow_succ_r by lia.
    assert (0 <= 10 ^ Z.of_nat (String.length d))
      by (apply Z.pow_nonneg; lia).
    nia.
Qed.

(** The digits that [str()] writes for a positive number do not start
    with a zero. *)
Lemma to_uint_no_leading_zero (p : positive) (v : Decimal.uint) :
  Pos.to_uint p <> Decimal.D0 v.
Proof.
  intros E.
  assert (Hn : Decimal.unorm (Pos.to_uint p) = Pos.to_uint p).
  { rewrite <- (DecimalPos.Unsigned.to_of (Pos.to_uint p)).
    now rewrite DecimalPos.Unsigned.of_to. }
  rewrite E, DecimalFacts.unorm_D0 in Hn.
  assert (Hv : v = Decimal.Nil \/ v <> Decimal.Nil)
    by (destruct v; [now left | right; discriminate ..]).
  destruct Hv as [->|Hv].
  - exact (DecimalPos.Unsigned.to_uint_nonzero p E).
  - pose proof (DecimalFacts.nb_digits_unorm v Hv) as Hle.
    rewrite Hn in Hle. cbn [Decimal.nb_digits] in Hle. lia.
Qed.

Lemma str_pos_lower (p : positive) :
  10 ^ Z.of_nat (String.length (str (Z.pos p)) - 1) <= Z.pos p.
Proof.
  assert (V : decimal (NilEmpty.string_of_uint (Pos.to_uint p)) = Z.pos p)
    by now rewrite <- of_uint_value, DecimalPos.Unsigned.of_to.
  pose proof (string_of_uint_digits (Pos.to_uint p)) as D.
  pose proof (DecimalPos.Unsigned.to_uint_nonnil p) as Hn.
  pose proof (to_uint_no_leading_zero p) as Hz.
  unfold str. cbn [Z.to_int NilZero.string_of_int].
  rewrite <- V. unfold decimal.
  destruct (Pos.to_uint p) as [|v|v|v|v|v|v|v|v|v|v];
    [congruence | now destruct (Hz v) | ..];
    cbn [NilZero.string_of_uint NilEmpty.string_of_uint String.length
         list_ascii_of_string fold_left Nat.sub] in *;
    rewrite Nat.sub_0_r;
    apply andb_prop in D as [Hc D];
    pose proof (digit_value_range _ Hc) as Hr;
    (eapply Z.le_trans; [|apply (decimal_lower _ _ D); lia]);
    assert (0 <= 10 ^ Z.of_nat (String.length (NilEmpty.string_of_uint v)))
      by (apply Z.pow_nonneg; lia);
    vm_compute digit_value in *; nia.
Qed.

(** [str()] writes every number of at most 4300 digits. *)
Lemma str_within (n : Z) :
  Z.abs n < 10 ^ Z.of_N max_str_digits -> str_raises n = false.
Proof.
  intros Hn. unfold str_raises. apply negb_false_iff.
  unfold within_limit.
  destruct n as [|p|p]; [reflexivity| |];
    apply N.leb_le; cbn [Z.abs] in *;
    pose proof (str_pos_lower p) as Hl;
    assert (Hlt : Z.of_nat (String.length (str (Z.pos p)) - 1)
                  < Z.of_N max_str_digits)
      by (apply (Z.pow_lt_mono_r_iff 10); lia);
    lia.
Qed.

Lemma append_inj_l (p x y : string) : (p ++ x = p ++ y)%string -> x = y.
Proof.
  induction p as [|c p IH]; cbn [String.append]; [trivial|].
  intros [= H]. now apply IH.
Qed.

End MorePyFacts.

(** ** More on the range parser *)

Section MoreParserFacts.

Context {World : Type}.

Implicit Types (s : @State World) (prs : list Z).



(** The numbers of an expansion are numbers that [str()] writes. *)
Lemma expands_formattable (token : string) (x : list Z) :
  Spec.expands token x -> Forall (fun n => Py.str_raises n = false) x.
Proof.
  intros [low high rest xs [_ Dl] Hh Hr Wl Wh [_ Hin] | tok n Hn].
  - apply Forall_forall. intros n Hx. apply Hin in Hx. apply str_within.
    pose proof (int_bound _ _ (int_digits_string high Hh Wh)) as Bh.
    pose proof (decimal_lower low 0 Dl (Z.le_refl 0)) as Bl.
    fold (Py.decimal low) in Bl. lia.
  - constructor; [|constructor]. exact (str_within _ (int_bound _ _ Hn)).
Qed.

Lemma parse_ok_inv (tokens : list string) s prs s' t :
  parse_pr_numbers tokens s = (Ok prs, s', t) ->
  exists xs, Forall2 Spec.expands tokens xs /\ prs = List.concat xs
             /\ s' = s /\ t = [].
Proof.
  intros H.
  destruct (parse_pr_numbers_cases tokens s)
    as [(xs & Hxs & E)|[(pre & bad & post & _ & _ & E)
                       |(pre & long & post & _ & _ & E)]];
    rewrite E in H; [|discriminate H ..].
  injection H as <- <- <-. now exists xs.
Qed.

(** The numbers that the parser returns are numbers that [str()] writes:
    the f-strings of [pr_command] with a change number do not raise. *)
Lemma parse_pr_numbers_formattable (tokens : list string) s prs s' t :
  parse_pr_numbers tokens s = (Ok prs, s', t) ->
  Forall (fun n => Py.str_raises n = false) prs.
Proof.
  intros H. destruct (parse_ok_inv _ _ _ _ _ H) as (xs & Hxs & -> & _).
  clear H. induction Hxs as [|tok x toks xs Hx _ IH]; [constructor|].
  cbn [List.concat]. apply Forall_app. split; [|exact IH].
  exact (expands_formattable _ _ Hx).
Qed.

Lemma parse_body_empty_range (token : string) prs s :
  Token.empty_range token ->
  parse_pr_numbers_body token prs s = (Ok prs, s, []).
Proof.
  intros (a & b & Ha & Hb & Wa & Wb & Hab & ->).
  now apply parse_body_backward_range.
Qed.


(** X2. Parsing distributes over the concatenation of token lists: when
    two lists parse, the list made of both parses to the two results one
    after the other. *)
Theorem parse_pr_numbers_app (l1 l2 : list string) (a b : list Z) s :
  parse_pr_numbers l1 s = (Ok a, s, []) ->
  parse_pr_numbers l2 s = (Ok b, s, []) ->
  parse_pr_numbers (l1 ++ l2) s = (Ok (a ++ b), s, []).
Proof.
  intros H1 H2.
  destruct (parse_ok_inv _ _ _ _ _ H1) as (xs1 & F1 & -> & _).
  destruct (parse_ok_inv _ _ _ _ _ H2) as (xs2 & F2 & -> & _).
  unfold parse_pr_numbers.
  rewrite (parse_loop_expands (l1 ++ l2) (xs1 ++ xs2) [] s).
  - now rewrite concat_app.
  - now apply Forall2_app.
Qed.

(** X4. A token made of digits and a dash that is not followed by a digit
    (an open range such as [5-], or [5-x], or [5--7]) is neither a range nor
    a number: the parser leaves with status 1. *)
Theorem parse_pr_numbers_dangling_range (d rest : string) s :
  Spec.digits d -> Spec.starts_with_digit rest = false ->
  parse_pr_numbers [(d ++ "-" ++ rest)%string] s
  = (Raise (SystemExit 1), s, [Stderr "expected number, got None"]).
Proof.
  intros Hd Hr. unfold parse_pr_numbers. cbn [for_each].
  apply bind_raise, parse_body_malformed.
  now apply dangling_range_malformed.
Qed.

(** X5. A literal of at most 4300 digits may carry a sign and be
    surrounded by white space: the parser returns the number it denotes,
    so a token such as [-5] gives a negative change number. *)
Theorem parse_pr_numbers_signed_literal (ws d ws' : string) s :
  Token.all_spaces ws = true -> Spec.digits d -> Py.within_limit d = true ->
  Token.all_spaces ws' = true ->
  parse_pr_numbers [(ws ++ d ++ ws')%string] s = (Ok [Py.decimal d], s, [])
  /\ parse_pr_numbers [(ws ++ "+" ++ d ++ ws')%string] s
     = (Ok [Py.decimal d], s, [])
  /\ parse_pr_numbers [(ws ++ "-" ++ d ++ ws')%string] s
     = (Ok [- Py.decimal d], s, []).
Proof.
  intros Hws Hd Hw Hws'.
  destruct (int_padded ws d ws' Hws Hd Hw Hws') as (H1 & H2 & H3).
  unfold parse_pr_numbers. cbn [for_each].
  rewrite (bind_ok _ _ _ _ _ _ (parse_body_literal _ _ [] s H1)).
  rewrite (bind_ok _ _ _ _ _ _ (parse_body_literal _ _ [] s H2)).
  rewrite (bind_ok _ _ _ _ _ _ (parse_body_literal _ _ [] s H3)).
  now repeat split.
Qed.

(** X12. Writing a change number as the driver does in a workspace name or
    a URL and parsing it back gives the number: [parse([str(n)]) == [n]]
    for every integer [n] that [str()] writes, that is of at most 4300
    digits. *)
Theorem parse_pr_numbers_str (n : Z) s :
  Py.str_raises n = false ->
  parse_pr_numbers [Py.str n] s = (Ok [n], s, []).
Proof.
  intros Hn. unfold parse_pr_numbers. cbn [for_each].
  now rewrite (bind_ok _ _ _ _ _ _
                 (parse_body_literal _ _ [] s (int_str n Hn))).
Qed.

End MoreParserFacts.

(** X13. Different change numbers never share a workspace name or a URL. *)
Theorem pr_names_differ (a b : Z) :
  a <> b ->
  ("pr-" ++ Py.str a)%string <> ("pr-" ++ Py.str b)%string
  /\ pr_url a <> pr_url b.
Proof.
  intros Hab.
  assert (Hstr : Py.str a <> Py.str b).
  { intros E. apply Hab. exact (str_inj a b E). }
  split; intros E; apply Hstr; exact (append_inj_l _ _ _ E).
Qed.

(** ** More on the batch orchestrator *)

Section MoreBatchFacts.

Context {World : Type} {collab : Collaborators World}.

Implicit Types (s : @State World) (args : argparse.Namespace).

(** The shell phase in general: every retained success is handed over in
    turn until, possibly, a launch raises. *)
Lemma shell_loop_general (ctxs : list context) s r s' t :
  for_each pr_shell_body ctxs tt s = (r, s', t) ->
  (r = Ok tt /\ t = flat_map Batch.shell_events ctxs
   /\ environ_NIX_PATH s' = Shell.last_path (environ_NIX_PATH s) ctxs)
  \/ (exists pre c post e,
         ctxs = pre ++ c :: post /\ r = Raise e
         /\ t = flat_map Batch.shell_events pre ++ Shell.abort_events c e).
Proof.
  revert s r s' t. induction ctxs as [|c ctxs IH]; intros s r s' t H.
  - cbn in H. injection H as <- <- <-. left. now repeat split.
  - cbn [for_each] in H. unfold bind in H. rewrite shell_step in H.
    destruct c as [[pr w] attrs].
    destruct (nix_shell_run attrs _ (world s)) as [[[]|e] w1].
    + destruct (for_each pr_shell_body ctxs tt _) as [[r2 s2] t2] eqn:E2.
      injection H as <- <- <-.
      destruct (IH _ _ _ _ E2)
        as [(-> & -> & Henv)|(pre & c & post & e & -> & -> & ->)].
      * left. repeat split. exact Henv.
      * right. exists ((pr, w, attrs) :: pre), c, post, e.
        now repeat split.
    + injection H as <- <- <-. right.
      exists [], (pr, w, attrs), ctxs, e. now repeat split.
Qed.

(** [pr_command] after the numbers are parsed, with the value of
    [NIX_PATH] it leaves behind. *)
Lemma pr_command_run_env args s prs r s' t :
  parse_pr_numbers args.(argparse.number) s = (Ok prs, s, []) ->
  pr_command args s = (r, s', t) ->
  exists rb sb tb,
    for_each (build_step args) prs [] (fresh_stack s) = (rb, sb, tb)
    /\ environ_NIX_PATH sb = environ_NIX_PATH s
    /\ match rb with
       | Raise e =>
           r = Raise e
           /\ t = tb ++ map WorktreeExit (rev (Trace.acquired tb))
           /\ environ_NIX_PATH s' = environ_NIX_PATH s
       | Ok contexts =>
           exists rs ss ts,
             for_each pr_shell_body contexts tt sb = (rs, ss, ts)
             /\ t = tb ++ ts ++ map WorktreeExit (rev (Trace.acquired tb))
             /\ r = match rs with
                    | Raise e => Raise e
                    | Ok _ =>
                        if Nat.eqb (List.length contexts) (List.length prs)
                        then Ok tt else Raise (SystemExit 1)
                    end
             /\ environ_NIX_PATH s' = environ_NIX_PATH ss
       end.
Proof.
  intros Hp H.
  destruct (pr_command_run _ _ _ _ _ _ Hp H) as (rb & sb & tb & Eb & Hrun).
  exists rb, sb, tb. split; [exact Eb|].
  destruct (build_loop_run _ _ _ _ _ _ _ Eb) as (_ & Henv & _).
  split; [exact Henv|].
  unfold pr_command in H.
  rewrite (bind_ok _ _ _ _ _ _ Hp) in H. cbn [app] in H.
  unfold with_ExitStack, pr_command_scope in H.
  fold (build_step args) in H. fold (fresh_stack s) in H.
  destruct rb as [contexts|e].
  - destruct Hrun as (rs & ss & ts & Es & Ht & Hr).
    exists rs, ss, ts. repeat split; trivial.
    rewrite (bind_ok _ _ _ _ _ _ Eb) in H. unfold bind in H. rewrite Es in H.
    destruct rs as [[]|e];
      [destruct (Nat.eqb (List.length contexts) (List.length prs))|];
      cbn in H;
      destruct (unwind (exit_stack ss) (world ss)) as [w2 t2];
      now injection H as <- <- <-.
  - destruct Hrun as [Hr Ht]. repeat split; trivial.
    rewrite (bind_raise _ _ _ _ _ _ Eb) in H.
    destruct (unwind (exit_stack sb) (world sb)) as [w2 t2].
    injection H as <- <- <-. exact Henv.
Qed.

Lemma shell_abort_fatal (c : context) (e : exn) :
  Trace.no_fatal (Shell.abort_events c e) = false.
Proof. now destruct c as [[pr w] attrs]. Qed.


(** X6. When every token is a range [a-b] with [a >= b], both runs of
    digits within the limit of [int()], the batch is empty: [pr_command]
    returns normally, so with status 0, without asking for a workspace,
    building or launching anything. *)
Theorem pr_command_nothing_requested args s :
  Forall Token.empty_range args.(argparse.number) ->
  pr_command args s
  = (Ok tt, mkState (world s) (environ_NIX_PATH s) (exit_stack s), []).
Proof.
  intros H.
  assert (Hp : parse_pr_numbers args.(argparse.number) s = (Ok [], s, [])).
  { unfold parse_pr_numbers. induction H as [|tok toks Htok _ IH].
    - reflexivity.
    - cbn [for_each].
      rewrite (bind_ok _ _ _ _ _ _ (parse_body_empty_range tok [] s Htok)).
      now rewrite IH. }
  unfold pr_command. rewrite (bind_ok _ _ _ _ _ _ Hp). reflexivity.
Qed.

(** X7. When the shell launcher raises for a retained success, the
    command ends with that exception: the successes before it had their
    shell, the ones after it get none, the test on the number of successes
    is not reached, and the workspaces are still left at the end.  When no
    launch raises, every success gets its shell and the test decides. *)
Theorem pr_command_shell_failure args s prs r s' t contexts sb tb :
  parse_pr_numbers args.(argparse.number) s = (Ok prs, s, []) ->
  pr_command args s = (r, s', t) ->
  for_each (build_step args) prs [] (fresh_stack s) = (Ok contexts, sb, tb) ->
  (r = (if Nat.eqb (List.length contexts) (List.length prs)
        then Ok tt else Raise (SystemExit 1))
   /\ t = tb ++ flat_map Batch.shell_events contexts
          ++ map WorktreeExit (rev (Trace.acquired tb)))
  \/ (exists pre c post e,
         contexts = pre ++ c :: post
         /\ r = Raise e
         /\ t = tb ++ (flat_map Batch.shell_events pre
                       ++ Shell.abort_events c e)
                ++ map WorktreeExit (rev (Trace.acquired tb))).
Proof.
  intros Hp H Eb.
  destruct (pr_command_run _ _ _ _ _ _ Hp H) as (rb & sb' & tb' & Eb' & Hrun).
  rewrite Eb in Eb'. injection Eb' as <- <- <-.
  destruct Hrun as (rs & ss & ts & Es & Ht & Hr).
  destruct (shell_loop_general _ _ _ _ _ Es)
    as [(-> & -> & _)|(pre & c & post & e & -> & -> & ->)].
  - left. now split.
  - right. exists pre, c, post, e. now repeat split.
Qed.

Lemma no_setenv_app (t1 t2 : list event) :
  Seen.no_setenv (t1 ++ t2) = Seen.no_setenv t1 && Seen.no_setenv t2.
Proof. apply forallb_app. Qed.

Lemma no_setenv_build_events args (os : list Batch.outcome) :
  Seen.no_setenv (flat_map (Batch.build_events args) os) = true.
Proof.
  induction os as [|o os IH]; [reflexivity|].
  cbn [flat_map]. rewrite no_setenv_app, IH. now destruct o.
Qed.

Lemma no_setenv_exits (ws : list Worktree) :
  Seen.no_setenv (map WorktreeExit ws) = true.
Proof. induction ws as [|w ws IH]; [reflexivity | exact IH]. Qed.

Lemma retained_workspace (os : list Batch.outcome) (c : context) :
  In c (Batch.retained os) -> In (snd (fst c)) (map Batch.workspace os).
Proof.
  unfold Batch.retained. rewrite in_flat_map. intros (o & Ho & Hc).
  apply in_map_iff. exists o. split; [|exact Ho].
  destruct o as [pr w attrs|pr w]; [|destruct Hc].
  destruct Hc as [<-|[]]. reflexivity.
Qed.

(** X8. In a run without fatal event the last write of [NIX_PATH] that the
    command makes is the path of the workspace of the last success handed
    to the shell, and that workspace is left after the write: the command
    does not restore the variable, so the value it leaves names a
    workspace that has been left by then.  When no change was built the
    command does not write [NIX_PATH] at all. *)
Theorem pr_command_leaves_NIX_PATH args s prs r s' t :
  parse_pr_numbers args.(argparse.number) s = (Ok prs, s, []) ->
  pr_command args s = (r, s', t) ->
  Trace.no_fatal t = true ->
  exists contexts : list context,
    outcome_of (for_each (build_step args) prs [] (fresh_stack s))
    = Ok contexts
    /\ match rev contexts with
       | [] => Seen.no_setenv t = true
       | c :: _ =>
           exists t1 t2 : list event,
             t = t1 ++ Setenv "NIX_PATH" (snd (fst c)).(nixpkgs_path) :: t2
             /\ Seen.no_setenv t2 = true
             /\ In (WorktreeExit (snd (fst c))) t2
       end.
Proof.
  intros Hp H Hnf.
  destruct (pr_command_nonfatal _ _ _ _ _ _ Hp H Hnf)
    as (os & sb & _ & Eb & Ht & _).
  exists (Batch.retained os). rewrite Eb. split; [reflexivity|].
  destruct (rev (Batch.retained os)) as [|c l] eqn:Hrev;
    apply (f_equal (@rev context)) in Hrev; rewrite rev_involutive in Hrev.
  - rewrite Ht, Hrev. cbn [rev flat_map app].
    now rewrite no_setenv_app, no_setenv_build_events, no_setenv_exits.
  - cbn [rev] in Hrev. destruct c as [[pr w] attrs]. cbn [fst snd].
    exists (flat_map (Batch.build_events args) os
            ++ flat_map Batch.shell_events (rev l) ++ [Stdout (pr_url pr)]),
           (NixShell attrs (Some w.(nixpkgs_path)) (Ok tt)
            :: map WorktreeExit (rev (map Batch.workspace os))).
    split; [|split].
    + rewrite Ht, Hrev, flat_map_app. cbn [flat_map Batch.shell_events app].
      now rewrite <- !app_assoc.
    + exact (no_setenv_exits _).
    + right. apply in_map. apply -> in_rev.
      apply (retained_workspace os (pr, w, attrs)). rewrite Hrev.
      apply in_or_app. right. now left.
Qed.

(** X14. In every run the command works in phases: first the events of
    the build loop (workspaces entered, builds, notices), then those of the
    shell loop, then the exits of the workspaces.  No workspace is asked
    for and no build is started once a shell has been launched. *)
Theorem pr_command_phases args s :
  exists (tb ts : list event) (ws : list Worktree),
    events_of (pr_command args s) = tb ++ ts ++ map WorktreeExit ws
    /\ forallb Trace.is_build_phase tb = true
    /\ forallb Trace.is_shell_phase ts = true.
Proof.
  destruct (parse_pr_numbers_cases args.(argparse.number) s)
    as [(xs & _ & Hp)|[(pre & bad & post & _ & _ & Hp)
                      |(pre & long & post & _ & _ & Hp)]].
  - destruct (pr_command args s) as [[r s'] t] eqn:H. unfold events_of.
    cbn [snd].
    destruct (pr_command_run _ _ _ _ _ _ Hp H) as (rb & sb & tb & Eb & Hrun).
    pose proof (emits_build_loop Trace.is_build_phase args (List.concat xs) []
                  ltac:(trivial) (fresh_stack s)) as Hb.
    rewrite Eb in Hb. cbn [snd] in Hb.
    destruct rb as [contexts|e].
    + destruct Hrun as (rs & ss & ts & Es & Ht & _).
      pose proof (emits_shell_loop Trace.is_shell_phase contexts
                    ltac:(trivial) sb) as Hs.
      rewrite Es in Hs. cbn [snd] in Hs.
      now exists tb, ts, (rev (Trace.acquired tb)).
    + destruct Hrun as [_ Ht].
      now exists tb, [], (rev (Trace.acquired tb)).
  - unfold pr_command. rewrite (bind_raise _ _ _ _ _ _ Hp).
    now exists [Stderr "expected number, got None"], [], [].
  - unfold pr_command. rewrite (bind_raise _ _ _ _ _ _ Hp).
    now exists [], [], [].
Qed.

Lemma entered_names_app (t1 t2 : list event) :
  Seen.entered_names (t1 ++ t2)
  = Seen.entered_names t1 ++ Seen.entered_names t2.
Proof. apply flat_map_app. Qed.

Lemma built_app (t1 t2 : list event) :
  Seen.built (t1 ++ t2) = Seen.built t1 ++ Seen.built t2.
Proof. apply flat_map_app. Qed.

Lemma seen_build_events args (os : list Batch.outcome) :
  Seen.entered_names (flat_map (Batch.build_events args) os)
  = map (fun pr => ("pr-" ++ Py.str pr)%string) (map Batch.change os)
  /\ Seen.built (flat_map (Batch.build_events args) os) = map Batch.change os.
Proof.
  induction os as [|o os [IH1 IH2]]; [now split|].
  cbn [flat_map map]. rewrite entered_names_app, built_app, IH1, IH2.
  now destruct o.
Qed.

Lemma seen_shell_events (cs : list context) :
  Seen.entered_names (flat_map Batch.shell_events cs) = []
  /\ Seen.built (flat_map Batch.shell_events cs) = [].
Proof.
  induction cs as [|[[pr w] attrs] cs IH]; [now split|]. exact IH.
Qed.

Lemma seen_exits (ws : list Worktree) :
  Seen.entered_names (map WorktreeExit ws) = []
  /\ Seen.built (map WorktreeExit ws) = [].
Proof. induction ws as [|w ws IH]; [now split|]. exact IH. Qed.

(** X15. In a run without fatal event every requested number gets one
    workspace and one build, in the order of the request: the names asked
    for are [pr-N] for the numbers in turn and the builds are those of the
    numbers in turn.  A number given twice is thus built twice, under the
    same workspace name. *)
Theorem pr_command_one_build_per_number args s prs r s' t :
  parse_pr_numbers args.(argparse.number) s = (Ok prs, s, []) ->
  pr_command args s = (r, s', t) ->
  Trace.no_fatal t = true ->
  Seen.entered_names t = map (fun pr => ("pr-" ++ Py.str pr)%string) prs
  /\ Seen.built t = prs.
Proof.
  intros Hp H Hnf.
  destruct (pr_command_nonfatal _ _ _ _ _ _ Hp H Hnf)
    as (os & sb & Hm & _ & Ht & _).
  destruct (seen_build_events args os) as [B1 B2].
  destruct (seen_shell_events (Batch.retained os)) as [S1 S2].
  destruct (seen_exits (rev (map Batch.workspace os))) as [E1 E2].
  rewrite Ht, !entered_names_app, !built_app, B1, B2, S1, S2, E1, E2, Hm.
  now rewrite !app_nil_r.
Qed.

End MoreBatchFacts.

(** ** More on the single-commit orchestrator and the entry point *)

Section MoreEntryFacts.

Context {World : Type} {collab : Collaborators World}.

Implicit Types (s : @State World) (args : argparse.Namespace).

(** The three ways [rev_command] can run. *)
Lemma rev_command_run args s :
  rev_command args s
  = match git_rev_parse_verify args.(argparse.commit) (world s) with
    | (Raise e, w1) =>
        (Raise e, mkState w1 (environ_NIX_PATH s) (exit_stack s),
         [GitRevParse args.(argparse.commit) (Raise e)])
    | (Ok c, w1) =>
        match Worktree_enter ("rev-" ++ c)%string w1 with
        | (Raise e, w2) =>
            (Raise e, mkState w2 (environ_NIX_PATH s) (exit_stack s),
             [GitRevParse args.(argparse.commit) (Ok c);
              WorktreeEnter ("rev-" ++ c)%string (Raise e)])
        | (Ok w, w2) =>
            let (r, w3) :=
              Review_review_commit (Rev.review args w)
                                   args.(argparse.branch) c w2 in
            (r, mkState (Worktree_exit w w3) (environ_NIX_PATH s)
                        (exit_stack s),
             [GitRevParse args.(argparse.commit) (Ok c);
              WorktreeEnter ("rev-" ++ c)%string (Ok w);
              ReviewCommit (Rev.review args w) args.(argparse.branch) c r;
              WorktreeExit w])
        end
    end.
Proof.
  unfold rev_command, with_Worktree, bind, call.
  destruct (git_rev_parse_verify _ (world s)) as [[c|e] w1]; [|reflexivity].
  cbn [world environ_NIX_PATH exit_stack].
  destruct (Worktree_enter _ w1) as [[w|e] w2]; [|reflexivity].
  cbn [world environ_NIX_PATH exit_stack]. fold (Rev.review args w).
  now destruct (Review_review_commit _ _ _ w2) as [r w3].
Qed.

(** X9. In single-commit mode at most one workspace is entered and every
    workspace entered is left.  When the review step runs, it runs in a
    workspace named after the text that the resolver printed, the command
    ends as the review ended (a failed review, a build failure included, is
    not handled as in the batch) and the last event is the exit of that
    workspace. *)
Theorem rev_command_scope args s :
  Trace.released (events_of (rev_command args s))
  = Trace.acquired (events_of (rev_command args s))
  /\ (List.length (Trace.acquired (events_of (rev_command args s))) <= 1)%nat
  /\ forall rv b c res,
      In (ReviewCommit rv b c res) (events_of (rev_command args s)) ->
      outcome_of (rev_command args s) = res
      /\ b = args.(argparse.branch)
      /\ exists w,
          rv = Rev.review args w
          /\ events_of (rev_command args s)
             = [GitRevParse args.(argparse.commit) (Ok c);
                WorktreeEnter ("rev-" ++ c)%string (Ok w);
                ReviewCommit rv b c res; WorktreeExit w].
Proof.
  rewrite rev_command_run. unfold events_of, outcome_of.
  destruct (git_rev_parse_verify _ (world s)) as [[c|e] w1].
  - destruct (Worktree_enter _ w1) as [[w|e] w2].
    + destruct (Review_review_commit _ _ _ w2) as [r w3]. cbn [fst snd].
      split; [reflexivity|]. split; [cbn; lia|].
      intros rv b c' res [E|[E|[E|[E|[]]]]]; try discriminate E.
      injection E as <- <- <- <-. split; [reflexivity|].
      split; [reflexivity|]. now exists w.
    + cbn [fst snd]. split; [reflexivity|]. split; [cbn; lia|].
      intros rv b c' res [E|[E|[]]]; discriminate E.
  - cbn [fst snd]. split; [reflexivity|]. split; [cbn; lia|].
    intros rv b c' res [E|[]]. discriminate E.
Qed.

Lemma released_exits (ws : list Worktree) :
  Trace.released (map WorktreeExit ws) = ws
  /\ Trace.acquired (map WorktreeExit ws) = [].
Proof.
  unfold Trace.released, Trace.acquired.
  induction ws as [|w ws [IH1 IH2]]; [now split|].
  cbn [map flat_map app]. now rewrite IH1, IH2.
Qed.

(** The exits of [pr_command] come last and match the entries. *)
Lemma pr_command_unwinding args s :
  Trace.released (events_of (pr_command args s))
  = rev (Trace.acquired (events_of (pr_command args s))).
Proof.
  destruct (parse_pr_numbers_cases args.(argparse.number) s)
    as [(xs & _ & Hp)|[(pre & bad & post & _ & _ & Hp)
                      |(pre & long & post & _ & _ & Hp)]].
  - destruct (pr_command args s) as [[r s'] t] eqn:H. unfold events_of.
    cbn [snd].
    destruct (pr_command_run _ _ _ _ _ _ Hp H) as (rb & sb & tb & Eb & Hrun).
    assert (Hrel : Trace.released tb = []).
    { apply released_none.
      pose proof (emits_build_loop (fun e => negb (Trace.is_worktree_exit e))
                    args (List.concat xs) []) as Hem.
      specialize (Hem ltac:(now intros []) (fresh_stack s)).
      now rewrite Eb in Hem. }
    destruct (released_exits (rev (Trace.acquired tb))) as [X1 X2].
    destruct rb as [contexts|e].
    + destruct Hrun as (rs & ss & ts & Es & Ht & _).
      pose proof (emits_shell_loop
                    (fun e => negb (Trace.is_worktree_enter e)
                              && negb (Trace.is_worktree_exit e))
                    contexts ltac:(now intros []) sb) as Hem.
      rewrite Es in Hem. cbn [snd] in Hem.
      assert (Hacq : Trace.acquired ts = []).
      { apply acquired_none. revert Hem. apply forallb_weaken.
        intros e He. now apply andb_prop in He as [He _]. }
      assert (Hrel' : Trace.released ts = []).
      { apply released_none. revert Hem. apply forallb_weaken.
        intros e He. now apply andb_prop in He as [_ He]. }
      rewrite Ht, !released_app, !acquired_app, Hrel, Hrel', Hacq, X1, X2.
      now rewrite !app_nil_r.
    + destruct Hrun as [_ Ht].
      rewrite Ht, !released_app, !acquired_app, Hrel, X1, X2.
      now rewrite !app_nil_r.
  - unfold pr_command. now rewrite (bind_raise _ _ _ _ _ _ Hp).
  - unfold pr_command. now rewrite (bind_raise _ _ _ _ _ _ Hp).
Qed.

Lemma call_func_unwinding args s :
  Trace.released (events_of (call_func args s))
  = rev (Trace.acquired (events_of (call_func args s))).
Proof.
  unfold call_func. destruct (argparse.func args).
  - apply pr_command_unwinding.
  - rewrite rev_command_run. unfold events_of.
    destruct (git_rev_parse_verify _ (world s)) as [[c|e] w1]; [|reflexivity].
    destruct (Worktree_enter _ w1) as [[w|e] w2]; [|reflexivity].
    now destruct (Review_review_commit _ _ _ w2) as [r w3].
Qed.

(** [main] once the arguments are parsed. *)
Lemma main_parsed command raw_args s args w1 :
  parser_parse_args command raw_args (world s) = (Ok args, w1) ->
  exists rb sb tb,
    call_func args (mkState (Buildenv_enter w1) (environ_NIX_PATH s)
                            (exit_stack s))
    = (rb, sb, tb)
    /\ main command raw_args s
       = (rb,
          mkState (Buildenv_exit (world sb)) (environ_NIX_PATH sb)
                  (exit_stack sb),
          [ParseArgs command raw_args (Ok args); BuildenvEnter]
          ++ tb ++ [BuildenvExit])
    /\ Trace.count Trace.is_buildenv_enter tb = 0%nat
    /\ Trace.count Trace.is_buildenv_exit tb = 0%nat.
Proof.
  intros Hp.
  destruct (call_func args (mkState (Buildenv_enter w1) (environ_NIX_PATH s)
                                    (exit_stack s)))
    as [[rb sb] tb] eqn:E.
  exists rb, sb, tb. split; [reflexivity|]. split.
  - unfold main, bind, parse_args, call, with_Buildenv. rewrite Hp.
    cbn [world environ_NIX_PATH exit_stack]. now rewrite E.
  - pose proof (emits_call_func (fun e => negb (Trace.is_buildenv e)) args
                  ltac:(intros ev Hev; cbn beta; now rewrite Hev)
                  (mkState (Buildenv_enter w1) (environ_NIX_PATH s)
                           (exit_stack s))) as Hem.
    rewrite E in Hem. cbn [snd] in Hem.
    split; apply count_none; revert Hem; apply forallb_weaken; intros ev;
      unfold Trace.is_buildenv.
    + destruct (Trace.is_buildenv_enter ev); [discriminate | reflexivity].
    + destruct (Trace.is_buildenv_exit ev); [|reflexivity].
      now rewrite orb_true_r.
Qed.

Lemma main_not_parsed command raw_args s e w1 :
  parser_parse_args command raw_args (world s) = (Raise e, w1) ->
  main command raw_args s
  = (Raise e, mkState w1 (environ_NIX_PATH s) (exit_stack s),
     [ParseArgs command raw_args (Raise e)]).
Proof.
  intros Hp. unfold main, bind, parse_args, call. now rewrite Hp.
Qed.

(** X10. For every invocation, whichever subcommand runs and however it
    ends: each workspace that was entered is left exactly once, the last
    entered first; the environment scope is left as many times as it is
    entered, and it is entered at most once: once when the arguments parse,
    not at all when parsing them raises. *)
Theorem main_leaves_nothing_behind command raw_args s :
  Trace.released (events_of (main command raw_args s))
  = rev (Trace.acquired (events_of (main command raw_args s)))
  /\ Trace.count Trace.is_buildenv_enter (events_of (main command raw_args s))
     = Trace.count Trace.is_buildenv_exit (events_of (main command raw_args s))
  /\ (Trace.count Trace.is_buildenv_enter
        (events_of (main command raw_args s)) <= 1)%nat
  /\ (Trace.count Trace.is_buildenv_enter
        (events_of (main command raw_args s)) = 1%nat
      <-> exists args w1,
            parser_parse_args command raw_args (world s) = (Ok args, w1)).
Proof.
  destruct (parser_parse_args command raw_args (world s)) as [[args|e] w1] eqn:Hp.
  - destruct (main_parsed _ _ _ _ _ Hp) as (rb & sb & tb & E & Em & C1 & C2).
    pose proof (call_func_unwinding args
                  (mkState (Buildenv_enter w1) (environ_NIX_PATH s)
                           (exit_stack s))) as Hu.
    rewrite E in Hu. unfold events_of in *. cbn [snd] in Hu.
    rewrite Em. cbn [snd].
    rewrite !released_app, !acquired_app, !count_app, C1, C2, Hu.
    cbn. rewrite !app_nil_r. repeat split; [lia|]. intros _. now exists args, w1.
  - rewrite (main_not_parsed _ _ _ _ _ Hp). unfold events_of. cbn.
    repeat split; [lia | discriminate |]. intros (a & w & H). discriminate H.
Qed.


Lemma build_events_nonfatal args (os : list Batch.outcome) :
  Trace.no_fatal (flat_map (Batch.build_events args) os) = true.
Proof.
  induction os as [|o os IH]; [reflexivity|].
  cbn [flat_map]. rewrite no_fatal_app, IH. now destruct o.
Qed.

Lemma shell_events_nonfatal (cs : list context) :
  Trace.no_fatal (flat_map Batch.shell_events cs) = true.
Proof.
  induction cs as [|[[pr w] attrs] cs IH]; [reflexivity|]. exact IH.
Qed.

Lemma exits_nonfatal (ws : list Worktree) :
  Trace.no_fatal (map WorktreeExit ws) = true.
Proof. induction ws as [|w ws IH]; [reflexivity | exact IH]. Qed.

(** X16. A normal return of [pr_command] can be trusted, whatever the
    collaborators do: the numbers parsed, every one of them was built with
    success, none failed, each got its shell, and nothing fatal happened. *)
Theorem pr_command_normal_return args s s' t :
  pr_command args s = (Ok tt, s', t) ->
  exists prs,
    parse_pr_numbers args.(argparse.number) s = (Ok prs, s, [])
    /\ Seen.built t = prs
    /\ Trace.build_failures t = 0%nat
    /\ Trace.shell_handoffs t = List.length prs
    /\ Trace.no_fatal t = true.
Proof.
  intros H.
  destruct (parse_pr_numbers_cases args.(argparse.number) s)
    as [(xs & _ & Hp)|[(pre & bad & post & _ & _ & Hp)
                      |(pre & long & post & _ & _ & Hp)]].
  2,3: unfold pr_command in H; rewrite (bind_raise _ _ _ _ _ _ Hp) in H;
    discriminate H.
  exists (List.concat xs). split; [exact Hp|].
  destruct (pr_command_run _ _ _ _ _ _ Hp H) as (rb & sb & tb & Eb & Hrun).
  destruct (build_loop_run _ _ _ _ _ _ _ Eb) as (_ & _ & os & Hos).
  destruct Hos as [(Hm & Hr & Ht)|(pr & e & rest & ta & _ & Hr & _ & _)].
  2:{ subst rb. destruct Hrun as [Hrun _]. discriminate Hrun. }
  subst rb tb. cbn [app] in *.
  destruct Hrun as (rs & ss & ts & Es & Ht & Hr).
  destruct (shell_loop_general _ _ _ _ _ Es)
    as [(-> & -> & _)|(pre & c & post & e & _ & -> & _)];
    [|discriminate Hr].
  rewrite acquired_build_events in Ht.
  destruct (Nat.eqb_spec (List.length (Batch.retained os))
                         (List.length (List.concat xs))) as [Eq|Ne];
    [|discriminate Hr].
  pose proof (retained_length os) as HL.
  assert (HN : List.length (List.concat xs) = List.length os).
  { now rewrite <- Hm, length_map. }
  destruct (seen_build_events args os) as [_ B2].
  destruct (seen_shell_events (Batch.retained os)) as [_ S2].
  destruct (seen_exits (rev (map Batch.workspace os))) as [_ E2].
  assert (HF : Batch.failures os = 0%nat) by lia.
  rewrite Ht. split.
  { now rewrite !built_app, B2, S2, E2, !app_nil_r. }
  split; [now rewrite nonfatal_build_failures|].
  split; [rewrite nonfatal_shell_handoffs; lia|].
  now rewrite !no_fatal_app, build_events_nonfatal, shell_events_nonfatal,
    exits_nonfatal.
Qed.

(** X17. A normal return of [rev_command] means that the ref resolved,
    that a workspace named after the resolved text was entered, that the
    review step ran there against the requested branch and returned, and
    that the workspace was left afterwards: these are its four events. *)
Theorem rev_command_normal_return args s s' t :
  rev_command args s = (Ok tt, s', t) ->
  exists c w,
    t = [GitRevParse args.(argparse.commit) (Ok c);
         WorktreeEnter ("rev-" ++ c)%string (Ok w);
         ReviewCommit (Rev.review args w) args.(argparse.branch) c (Ok tt);
         WorktreeExit w].
Proof.
  rewrite rev_command_run.
  destruct (git_rev_parse_verify _ (world s)) as [[c|e] w1]; [|discriminate].
  destruct (Worktree_enter _ w1) as [[w|e] w2]; [|discriminate].
  destruct (Review_review_commit _ _ _ w2) as [[[]|e] w3]; [|discriminate].
  intros [= <- <-]. now exists c, w.
Qed.

End MoreEntryFacts.

(** ** Further runs on concrete inputs *)

(** [1-3] and [7], apart and together. *)
Lemma parse_pr_numbers_app_witness :
  parse_pr_numbers (["1-3"] ++ ["7"]) Scenario.start
  = (Ok ([1; 2] ++ [7]), Scenario.start, []).
Proof.
  apply parse_pr_numbers_app; vm_compute; reflexivity.
Defined.


(** The open range [5-]. *)
Lemma parse_pr_numbers_dangling_range_witness :
  parse_pr_numbers ["5-"] Scenario.start
  = (Raise (SystemExit 1), Scenario.start,
     [Stderr "expected number, got None"]).
Proof.
  change (parse_pr_numbers [("5" ++ "-" ++ "")%string] Scenario.start
          = (Raise (SystemExit 1), Scenario.start,
             [Stderr "expected number, got None"])).
  apply parse_pr_numbers_dangling_range;
    [split; [discriminate | reflexivity] | reflexivity].
Defined.

(** [ 5], [ +5] and [ -5], each after a space. *)
Lemma parse_pr_numbers_signed_literal_witness :
  parse_pr_numbers [" 5"] Scenario.start = (Ok [5], Scenario.start, [])
  /\ parse_pr_numbers [" +5"] Scenario.start = (Ok [5], Scenario.start, [])
  /\ parse_pr_numbers [" -5"] Scenario.start = (Ok [-5], Scenario.start, []).
Proof.
  change (parse_pr_numbers [(" " ++ "5" ++ "")%string] Scenario.start
          = (Ok [Py.decimal "5"], Scenario.start, [])
          /\ parse_pr_numbers [(" " ++ "+" ++ "5" ++ "")%string] Scenario.start
             = (Ok [Py.decimal "5"], Scenario.start, [])
          /\ parse_pr_numbers [(" " ++ "-" ++ "5" ++ "")%string] Scenario.start
             = (Ok [- Py.decimal "5"], Scenario.start, [])).
  apply parse_pr_numbers_signed_literal;
    [reflexivity | split; [discriminate | reflexivity] | reflexivity
    |reflexivity].
Defined.

(** [-42] written and read back. *)
Lemma parse_pr_numbers_str_witness :
  parse_pr_numbers [Py.str (-42)] Scenario.start
  = (Ok [-42], Scenario.start, []).
Proof.
  apply parse_pr_numbers_str. reflexivity.
Defined.

(** [pr 7-5 5-5]. *)
Lemma pr_command_nothing_requested_witness :
  pr_command (collab := Scenario.collaborators [] [])
             (Scenario.pr_args ["7-5"; "5-5"]) Scenario.start
  = (Ok tt, Scenario.start, []).
Proof.
  apply (pr_command_nothing_requested (Scenario.pr_args ["7-5"; "5-5"])
                                      Scenario.start).
  constructor; [|constructor; [|constructor]].
  - exists "7", "5".
    split; [split; [discriminate | reflexivity]|].
    split; [split; [discriminate | reflexivity]|].
    split; [reflexivity|]. split; [reflexivity|].
    split; [vm_compute; discriminate | reflexivity].
  - exists "5", "5".
    split; [split; [discriminate | reflexivity]|].
    split; [split; [discriminate | reflexivity]|].
    split; [reflexivity|]. split; [reflexivity|].
    split; [vm_compute; discriminate | reflexivity].
Defined.

(** [pr 1-4] when the shell of change 2 cannot be launched: change 1 had
    its shell, change 3 gets none, and the command ends with [OSError]. *)
Lemma pr_command_shell_failure_witness :
  exists pre c post e,
    Fragile.successes = pre ++ c :: post
    /\ outcome_of Fragile.run_shell_failure = Raise e
    /\ events_of Fragile.run_shell_failure
       = events_of Fragile.build_phase
         ++ (flat_map Batch.shell_events pre ++ Shell.abort_events c e)
         ++ map WorktreeExit
                (rev (Trace.acquired (events_of Fragile.build_phase))).
Proof.
  assert (Hp : parse_pr_numbers ["1-4"] Scenario.start
               = (Ok [1; 2; 3], Scenario.start, []))
    by (vm_compute; reflexivity).
  assert (Hr : pr_command (collab := Fragile.collaborators [2])
                          (Scenario.pr_args ["1-4"]) Scenario.start
               = (outcome_of Fragile.run_shell_failure,
                  snd (fst Fragile.run_shell_failure),
                  events_of Fragile.run_shell_failure))
    by (vm_compute; reflexivity).
  assert (Hb : for_each (build_step (collab := Fragile.collaborators [2])
                                    (Scenario.pr_args ["1-4"]))
                        [1; 2; 3] [] (fresh_stack Scenario.start)
               = (Ok Fragile.successes, snd (fst Fragile.build_phase),
                  events_of Fragile.build_phase))
    by (vm_compute; reflexivity).
  destruct (pr_command_shell_failure (Scenario.pr_args ["1-4"]) _ _ _ _ _ _ _ _
                                     Hp Hr Hb)
    as [[H _]|(pre & c & post & e & H1 & H2 & H3)].
  - vm_compute in H. discriminate H.
  - exists pre, c, post, e. split; [exact H1|]. split; [exact H2 | exact H3].
Defined.

Example shell_failure_run :
  (outcome_of Fragile.run_shell_failure,
   List.length Fragile.successes,
   Trace.shell_handoffs (events_of Fragile.run_shell_failure),
   List.length (Trace.released (events_of Fragile.run_shell_failure)))
  = (Raise (OtherException "OSError"), 3%nat, 2%nat, 3%nat).
Proof. vm_compute. reflexivity. Qed.

(** [pr 1-4] with a failing build of change 2: the last write of
    [NIX_PATH] is the path of the workspace of change 3, which is left
    afterwards. *)
Lemma pr_command_leaves_NIX_PATH_witness :
  exists contexts : list context,
    outcome_of (for_each (build_step
                            (collab := Scenario.collaborators [2] [])
                            (Scenario.pr_args ["1-4"]))
                         [1; 2; 3] [] (fresh_stack Scenario.start))
    = Ok contexts
    /\ match rev contexts with
       | [] => Seen.no_setenv (events_of Scenario.run_one_failure) = true
       | c :: _ =>
           exists t1 t2 : list event,
             events_of Scenario.run_one_failure
             = t1 ++ Setenv "NIX_PATH" (snd (fst c)).(nixpkgs_path) :: t2
             /\ Seen.no_setenv t2 = true
             /\ In (WorktreeExit (snd (fst c))) t2
       end.
Proof.
  assert (Hp : parse_pr_numbers ["1-4"] Scenario.start
               = (Ok [1; 2; 3], Scenario.start, []))
    by (vm_compute; reflexivity).
  assert (Hr : pr_command (collab := Scenario.collaborators [2] [])
                          (Scenario.pr_args ["1-4"]) Scenario.start
               = (outcome_of Scenario.run_one_failure,
                  snd (fst Scenario.run_one_failure),
                  events_of Scenario.run_one_failure))
    by (vm_compute; reflexivity).
  assert (Hnf : Trace.no_fatal (events_of Scenario.run_one_failure) = true)
    by (vm_compute; reflexivity).
  exact (pr_command_leaves_NIX_PATH (Scenario.pr_args ["1-4"]) _ _ _ _ _
                                    Hp Hr Hnf).
Defined.

Example NIX_PATH_after_run :
  filter Seen.is_setenv (events_of Scenario.run_one_failure)
  = [Setenv "NIX_PATH" "nixpkgs=/src/.review/pr-1";
     Setenv "NIX_PATH" "nixpkgs=/src/.review/pr-3"]
  /\ environ_NIX_PATH (snd (fst Scenario.run_one_failure))
     = Some "nixpkgs=/src/.review/pr-3".
Proof. split; vm_compute; reflexivity. Qed.


(** Changes 1 and 2. *)
Lemma pr_names_differ_witness :
  "pr-1" <> "pr-2"
  /\ "https://github.com/NixOS/nixpkgs/pull/1"
     <> "https://github.com/NixOS/nixpkgs/pull/2".
Proof.
  change (("pr-" ++ Py.str 1)%string <> ("pr-" ++ Py.str 2)%string
          /\ pr_url 1 <> pr_url 2).
  apply pr_names_differ. discriminate.
Defined.

(** [pr 1-4] with a failing build of change 2: three workspaces, three
    builds. *)
Lemma pr_command_one_build_per_number_witness :
  Seen.entered_names (events_of Scenario.run_one_failure)
  = ["pr-1"; "pr-2"; "pr-3"]
  /\ Seen.built (events_of Scenario.run_one_failure) = [1; 2; 3].
Proof.
  assert (Hp : parse_pr_numbers ["1-4"] Scenario.start
               = (Ok [1; 2; 3], Scenario.start, []))
    by (vm_compute; reflexivity).
  assert (Hr : pr_command (collab := Scenario.collaborators [2] [])
                          (Scenario.pr_args ["1-4"]) Scenario.start
               = (outcome_of Scenario.run_one_failure,
                  snd (fst Scenario.run_one_failure),
                  events_of Scenario.run_one_failure))
    by (vm_compute; reflexivity).
  assert (Hnf : Trace.no_fatal (events_of Scenario.run_one_failure) = true)
    by (vm_compute; reflexivity).
  change ["pr-1"; "pr-2"; "pr-3"]
    with (map (fun pr => ("pr-" ++ Py.str pr)%string) [1; 2; 3]).
  exact (pr_command_one_build_per_number (Scenario.pr_args ["1-4"]) _ _ _ _ _
                                         Hp Hr Hnf).
Defined.

Example duplicate_number_run :
  (let run := pr_command (collab := Scenario.collaborators [] [])
                         (Scenario.pr_args ["5"; "5"]) Scenario.start in
   (outcome_of run, Seen.entered_names (events_of run),
    List.length (Trace.acquired (events_of run)),
    List.length (Trace.released (events_of run))))
  = (Raise (OtherException "FileExistsError"), ["pr-5"; "pr-5"],
     1%nat, 1%nat).
Proof. vm_compute. reflexivity. Qed.

(** [pr 1-3] when everything builds. *)
Lemma pr_command_normal_return_witness :
  exists prs,
    parse_pr_numbers ["1-3"] Scenario.start = (Ok prs, Scenario.start, [])
    /\ Seen.built
         (events_of (pr_command (collab := Scenario.collaborators [] [])
                                (Scenario.pr_args ["1-3"]) Scenario.start))
       = prs
    /\ Trace.build_failures
         (events_of (pr_command (collab := Scenario.collaborators [] [])
                                (Scenario.pr_args ["1-3"]) Scenario.start))
       = 0%nat
    /\ Trace.shell_handoffs
         (events_of (pr_command (collab := Scenario.collaborators [] [])
                                (Scenario.pr_args ["1-3"]) Scenario.start))
       = List.length prs
    /\ Trace.no_fatal
         (events_of (pr_command (collab := Scenario.collaborators [] [])
                                (Scenario.pr_args ["1-3"]) Scenario.start))
       = true.
Proof.
  apply (pr_command_normal_return
           (collab := Scenario.collaborators [] [])
           (Scenario.pr_args ["1-3"]) Scenario.start
           (snd (fst (pr_command (collab := Scenario.collaborators [] [])
                                 (Scenario.pr_args ["1-3"]) Scenario.start)))).
  vm_compute. reflexivity.
Defined.

(** [rev HEAD]. *)
Lemma rev_command_normal_return_witness :
  exists c w,
    events_of (rev_command (collab := Scenario.collaborators [] [])
                           (Scenario.rev_args "HEAD") Scenario.start)
    = [GitRevParse "HEAD" (Ok c);
       WorktreeEnter ("rev-" ++ c)%string (Ok w);
       ReviewCommit (Rev.review (Scenario.rev_args "HEAD") w) "master" c
                    (Ok tt);
       WorktreeExit w].
Proof.
  apply (rev_command_normal_return
           (collab := Scenario.collaborators [] [])
           (Scenario.rev_args "HEAD") Scenario.start
           (snd (fst (rev_command (collab := Scenario.collaborators [] [])
                                  (Scenario.rev_args "HEAD") Scenario.start)))).
  vm_compute. reflexivity.
Defined.
